(** * nano-wallet-js: a shallow embedding of the RPC client, the state store
    and the wallet controller, with the properties of its specification. *)

From Stdlib Require Import ZArith Bool List Lia.
From Stdlib Require Import String Ascii.
From stdpp Require Import base gmap strings.
Import ListNotations.
Open Scope string_scope.

(** Results of JS calls that may throw: [Ok v], or [Err e] for a thrown
    error [e]. *)
Inductive result (E A : Type) : Type :=
| Ok (v : A)
| Err (e : E).
Arguments Ok {E A} v.
Arguments Err {E A} e.

(* ------------------------------------------------------------------ *)
(** ** src/rpc/RpcController.ts *)
Module Rpc.

(** A thrown JS value: whether it is a [DOMException], its [name] and its
    [message]. *)
Record js_error := mkError {
  err_is_dom : bool;
  err_name : string;
  err_message : string
}.

(** [new Error(msg)] *)
Definition newError (msg : string) : js_error := mkError false "Error" msg.

(** What [fetchWithTimeout] rejects with when the per-attempt timer fires
    ([controller.abort()]): a [DOMException] named [AbortError]. *)
Definition abortError : js_error :=
  mkError true "AbortError" "This operation was aborted".

(** What [fetch] rejects with on a transport failure (refused connection,
    DNS failure): a [TypeError], not a [DOMException]. *)
Definition transportError : js_error := mkError false "TypeError" "fetch failed".

(** The parsed JSON body of a response: an object carrying an [error] field
    (its message) or any other value. *)
Inductive rpc_body :=
| BodyWithError (msg : string)
| BodyValue (v : string).

(** The outcome of one [fetchWithTimeout(url, ...)]: it rejects, or it
    resolves to a response with its [ok] flag and its body, [None] when
    [response.json()] fails. *)
Inductive fetch_outcome :=
| FetchRejects (e : js_error)
| FetchResponse (ok : bool) (json : option rpc_body).

(** The body of the [try] block of [postRPC], for one attempt. *)
Definition attempt (o : fetch_outcome) : result js_error string :=
  match o with
  | FetchRejects e => Err e
  | FetchResponse ok json =>
      if negb ok then Err (newError "bad status in response")
      else match json with
           | None => Err (newError "bad json in response")
           | Some (BodyWithError m) => Err (newError m)
           | Some (BodyValue v) => Ok v
           end
  end.

(** [isRetryableError], with its parenthesisation: the [DOMException] test
    guards all three alternatives. *)
Definition isRetryableError (e : js_error) : bool :=
  err_is_dom e &&
  (String.eqb (err_name e) "AbortError" ||
   String.eqb (err_message e) "bad status in response" ||
   String.eqb (err_message e) "bad json in response").

Section PostRPC.
(** The network: what [fetchWithTimeout] gives for a URL ([None] is the
    [undefined] of [urls[retry]] out of range). *)
Variable net : option string -> fetch_outcome.
Variable urls : list string.

(** [postRPC(data, urls, retry)]. It returns the result together with the
    URLs it fetched, in order. The recursive call is taken only when
    [retry < urls.length - 1], so [length urls] steps of [fuel] are always
    enough (see [postRPC_go_fuel]). *)
Fixpoint postRPC_go (fuel retry : nat)
  : result js_error string * list (option string) :=
  let url := nth_error urls retry in
  match attempt (net url) with
  | Ok body => (Ok body, [url])
  | Err e =>
      let canRetry :=
        isRetryableError e && (Z.of_nat retry <? Z.of_nat (length urls) - 1)%Z in
      if canRetry then
        match fuel with
        | S f => let '(r, tried) := postRPC_go f (S retry) in (r, url :: tried)
        | O => (Err e, [url])
        end
      else (Err e, [url])
  end.

Definition postRPC : result js_error string * list (option string) :=
  postRPC_go (length urls) 0.
End PostRPC.

(** [rpcUrls instanceof Array ? rpcUrls : [rpcUrls]] *)
Inductive urls_config :=
| UrlString (s : string)
| UrlArray (l : list string).

Definition as_array (c : urls_config) : list string :=
  match c with
  | UrlString s => [s]
  | UrlArray l => l
  end.

Section Constructor.
(** Whether [new URL(addr)] succeeds (the WHATWG URL parser). *)
Variable url_parses : string -> bool.

(** [forEach] whose callback throws on the first address that does not
    parse. *)
Fixpoint validate_each (prefix : string) (l : list string)
  : result js_error unit :=
  match l with
  | [] => Ok tt
  | addr :: rest =>
      if url_parses addr then validate_each prefix rest
      else Err (newError (prefix ++ addr))
  end.

Record NanoRPC := mkNanoRPC {
  rpcUrls : list string;
  workerUrls : list string;
  timeout : Z
}.

(** [new NanoRPC({rpcUrls, workerUrls, timeout})]. *)
Definition NanoRPC_new (rpc workers : urls_config) (timeout_ms : Z)
  : result js_error NanoRPC :=
  let r := as_array rpc in
  if (Z.of_nat (length r) <? 0)%Z then Err (newError "No RPC addresses provided")
  else match validate_each "Invalid RPC address: " r with
       | Err e => Err e
       | Ok _ =>
         let w := as_array workers in
         if (Z.of_nat (length w) <? 0)%Z then Err (newError "No workers addresses provided")
         else match validate_each "Invalid workers address: " w with
              | Err e => Err e
              | Ok _ => Ok (mkNanoRPC r w timeout_ms)
              end
       end.
End Constructor.

(** The request bodies the [NanoRPC] methods post, by [action]. The
    constant flags of each body ([json_block: 'true'] for [process];
    [representative], [weight] and [receivable: true] for [account_info];
    [receivable: true] for [account_balance]) are fixed by the action. *)
Inductive rpc_data (BlockRepresentation : Type) :=
| DataProcess (block : BlockRepresentation)
| DataWorkGenerate (hash difficulty : string)
| DataAccountInfo (account : string)
| DataAccountBalance (account : string)
| DataReceivable (account : string) (count : Z) (threshold : string).
Arguments DataProcess {BlockRepresentation} block.
Arguments DataWorkGenerate {BlockRepresentation} hash difficulty.
Arguments DataAccountInfo {BlockRepresentation} account.
Arguments DataAccountBalance {BlockRepresentation} account.
Arguments DataReceivable {BlockRepresentation} account count threshold.

Section Methods.
Variable BlockRepresentation : Type.
(** The network, for a request body and a URL. *)
Variable net : rpc_data BlockRepresentation -> option string -> fetch_outcome.

(** [process(block)] *)
Definition process (c : NanoRPC) (block : BlockRepresentation) :=
  postRPC (net (DataProcess block)) (rpcUrls c).

(** [workGenerate(hash, difficulty)]: posted to the work servers. *)
Definition workGenerate (c : NanoRPC) (hash difficulty : string) :=
  postRPC (net (DataWorkGenerate hash difficulty)) (workerUrls c).

(** [accountInfo(account)] *)
Definition accountInfo (c : NanoRPC) (account : string) :=
  postRPC (net (DataAccountInfo account)) (rpcUrls c).

(** [accountBalance(account)] *)
Definition accountBalance (c : NanoRPC) (account : string) :=
  postRPC (net (DataAccountBalance account)) (rpcUrls c).

(** [receivable(account, { count = 100, threshold = '1' })]: [None] for an
    option the caller leaves [undefined]. *)
Definition receivable (c : NanoRPC) (account : string)
    (count : option Z) (threshold : option string) :=
  postRPC (net (DataReceivable account (default 100%Z count) (default "1" threshold)))
          (rpcUrls c).
End Methods.

End Rpc.

(* ------------------------------------------------------------------ *)
(** ** src/BaseController.ts: the state store *)
Module Store.

(** When the promise returned by a listener settles, in scheduler ticks. *)
Inductive settle :=
| Fulfilled (t : nat)
| Rejected (t : nat).

(** [Promise.all(promises)]: it rejects at the earliest rejection; it
    fulfills once every promise has fulfilled, that is at the latest
    fulfillment (at once for no promise). *)
Fixpoint first_rejection (ps : list settle) : option nat :=
  match ps with
  | [] => None
  | Rejected t :: rest =>
      match first_rejection rest with
      | Some t' => Some (Nat.min t t')
      | None => Some t
      end
  | Fulfilled _ :: rest => first_rejection rest
  end.

Fixpoint last_fulfillment (ps : list settle) : nat :=
  match ps with
  | [] => 0
  | Fulfilled t :: rest => Nat.max t (last_fulfillment rest)
  | Rejected _ :: rest => last_fulfillment rest
  end.

Definition promise_all (ps : list settle) : settle :=
  match first_rejection ps with
  | Some t => Rejected t
  | None => Fulfilled (last_fulfillment ps)
  end.

Section BaseController.
(** A snapshot is a JS object: its own keys and their values. *)
Context {V : Type}.

(** [Listener<S>]: called with the state and the [resetting] flag, it
    returns a promise, described by when and how it settles. *)
Definition Listener := gmap string V -> bool -> settle.

Record BaseController := mkController {
  internalState : gmap string V;
  internalListeners : list Listener
}.

(** [Object.assign({}, this.internalState, state)]: the keys of [state]
    win, the other keys of the current snapshot stay. *)
Definition object_assign (target src : gmap string V) : gmap string V :=
  src ∪ target.

(** [notify(state, resetting)]: every listener is called with [state], in
    registration order; the calls are returned with the settlement of the
    awaited [Promise.all]. *)
Definition notify (c : BaseController) (s : gmap string V) (resetting : bool)
  : list (gmap string V) * settle :=
  (map (fun _ => s) (internalListeners c),
   promise_all (map (fun l => l s resetting) (internalListeners c))).

(** [update(state, overwrite, resetting)]: the new snapshot is assigned to
    [internalState] first, then [notify] is called with it; the update
    settles when the awaited notification does. *)
Definition update (c : BaseController) (state : gmap string V)
    (overwrite resetting : bool)
  : BaseController * list (gmap string V) * settle :=
  let s' := if overwrite then object_assign ∅ state
            else object_assign (internalState c) state in
  let c' := mkController s' (internalListeners c) in
  let '(calls, r) := notify c' (internalState c') resetting in
  (c', calls, r).

(** [subscribe(listener)] *)
Definition subscribe (c : BaseController) (l : Listener) : BaseController :=
  mkController (internalState c) (internalListeners c ++ [l]).

(** [Array.prototype.findIndex]: the index of the first element that
    satisfies [p], or [-1]. *)
Fixpoint findIndex {A} (p : A -> bool) (l : list A) : Z :=
  match l with
  | [] => (-1)%Z
  | x :: rest =>
      if p x then 0%Z
      else let i := findIndex p rest in if (i =? -1)%Z then (-1)%Z else (i + 1)%Z
  end.

(** [splice(index, 1)]: removes the element at [index], if any. *)
Fixpoint splice1 {A} (l : list A) (index : nat) : list A :=
  match l, index with
  | [], _ => []
  | _ :: rest, O => rest
  | x :: rest, S i => x :: splice1 rest i
  end.

(** [unsubscribe(listener)]. JS compares listeners by reference ([===]),
    which a Rocq function does not carry: [same] is that comparison. *)
Definition unsubscribe (same : Listener -> Listener -> bool)
    (c : BaseController) (listener : Listener) : BaseController * bool :=
  let index := findIndex (fun cb => same listener cb) (internalListeners c) in
  if (index >? -1)%Z
  then (mkController (internalState c) (splice1 (internalListeners c) (Z.to_nat index)),
        true)
  else (c, false).

(** [reset()]: [this.update(this.defaultState, true, true)], neither
    awaited nor returned: [reset] returns [undefined], and the settlement
    of the update is dropped. The assignment of the state and the calls of
    the listeners happen synchronously, before the first [await] of
    [update]. *)
Definition reset (defaultState : gmap string V) (c : BaseController)
  : BaseController * list (gmap string V) :=
  let '(c', calls, _) := update c defaultState true true in (c', calls).

End BaseController.

End Store.

(** * The configuration half of BaseController

    [configure] mutates the object [internalConfig] points to, and
    [initialize] makes [internalConfig] point to [defaultConfig]: objects
    are modelled as a heap of locations, so that the aliasing is visible. *)

Module ConfigStore.

Section Config.
Context {V : Type}.

(** A property value of a config object: [undefined] or a value. An
    object is a [gmap string jsval]: its own keys and their values. *)
Inductive jsval :=
| Undefined
| Defined (v : V).

(** The config fields of a controller: the heap of objects, the locations
    [defaultConfig], [initialConfig] and [internalConfig] hold, and the
    members [(this as any)[key]] set by [configure]. *)
Record Controller := mkCtl {
  heap : gmap positive (gmap string jsval);
  defaultConfig : positive;
  initialConfig : positive;
  internalConfig : positive;
  members : gmap string jsval
}.

Definition deref (h : gmap positive (gmap string jsval)) (l : positive) : gmap string jsval :=
  default ∅ (h !! l).

(** [Object.assign(target, src)]: the keys of [src], [undefined] values
    included, are written into the object at [target]. *)
Definition assign_into (h : gmap positive (gmap string jsval)) (target src : positive)
  : gmap positive (gmap string jsval) :=
  <[target := deref h src ∪ deref h target]> h.

(** The entries [for (const key in o) if (typeof o[key] !== 'undefined')]
    keeps. *)
Definition defined_entries (o : gmap string jsval) : gmap string jsval :=
  omap (fun v => match v with Undefined => None | Defined x => Some (Defined x) end) o.

(** [configure(config, overwrite, fullUpdate)], [config] at location [l]. *)
Definition configure (c : Controller) (l : positive) (overwrite fullUpdate : bool)
  : Controller :=
  if fullUpdate then
    let h := if overwrite then heap c else assign_into (heap c) (internalConfig c) l in
    let ic := if overwrite then l else internalConfig c in
    mkCtl h (defaultConfig c) (initialConfig c) ic
          (defined_entries (deref h ic) ∪ members c)
  else
    let cur := deref (heap c) (internalConfig c) in
    let upd := map_imap (fun k v => match cur !! k with
                                    | Some (Defined _) => Some v
                                    | _ => None
                                    end) (deref (heap c) l) in
    mkCtl (<[internalConfig c := upd ∪ cur]> (heap c)) (defaultConfig c)
          (initialConfig c) (internalConfig c) (upd ∪ members c).

(** The config steps of [initialize()]: [this.internalConfig =
    this.defaultConfig; this.configure(this.initialConfig)]. *)
Definition initialize (c : Controller) : Controller :=
  configure (mkCtl (heap c) (defaultConfig c) (initialConfig c) (defaultConfig c)
                   (members c))
            (initialConfig c) false true.

(** [get config()] *)
Definition config (c : Controller) : gmap string jsval := deref (heap c) (internalConfig c).

End Config.

Arguments jsval : clear implicits.
Arguments Controller : clear implicits.

End ConfigStore.

Module ConfigSample.
Import ConfigStore.

(** A wallet-like controller: the default config (location 1) enables
    [precomputeWork]; the initial options (location 2) pass it as
    [undefined]. *)
Definition ctl : Controller bool :=
  mkCtl {[ 1%positive := {[ "precomputeWork" := Defined true ]};
           2%positive := {[ "precomputeWork" := Undefined ]} ]}
        1 2 1 ∅.
End ConfigSample.

(* ------------------------------------------------------------------ *)
(** ** JS numbers, as far as [parseInt(s, 16)] and [>=] need them *)
Module JsNumber.

Inductive number :=
| NaN
| Finite (z : Z)
| PosInf
| NegInf.

(** Round a non-negative integer to the nearest double (53 significant
    bits, ties to even), as [𝔽(mathInt)] does. *)
Definition round53 (m : Z) : Z :=
  let L := (Z.log2 m + 1)%Z in
  if (L <=? 53)%Z then m
  else
    let s := (L - 53)%Z in
    let q := Z.shiftr m s in
    let r := (m - Z.shiftl q s)%Z in
    let half := Z.shiftl 1 (s - 1) in
    let q' := if (half <? r)%Z || ((r =? half)%Z && Z.odd q) then (q + 1)%Z else q in
    Z.shiftl q' s.

Definition of_integer (neg : bool) (m : Z) : number :=
  let r := round53 m in
  if (Z.pow 2 1024 <=? r)%Z then (if neg then NegInf else PosInf)
  else Finite (if neg then Z.opp r else r).

Definition hex_digit (c : ascii) : option Z :=
  let n := Z.of_nat (nat_of_ascii c) in
  if ((48 <=? n) && (n <=? 57))%Z then Some (n - 48)%Z
  else if ((97 <=? n) && (n <=? 102))%Z then Some (n - 87)%Z
  else if ((65 <=? n) && (n <=? 70))%Z then Some (n - 55)%Z
  else None.

(** The value of the longest prefix of hexadecimal digits, and whether it
    is non-empty. *)
Fixpoint hex_prefix (s : string) (acc : Z) (seen : bool) : Z * bool :=
  match s with
  | EmptyString => (acc, seen)
  | String c rest =>
      match hex_digit c with
      | Some d => hex_prefix rest (16 * acc + d)%Z true
      | None => (acc, seen)
      end
  end.

Definition is_space (c : ascii) : bool :=
  let n := nat_of_ascii c in
  Nat.eqb n 32 || (Nat.leb 9 n && Nat.leb n 13).

Fixpoint trim_start (s : string) : string :=
  match s with
  | String c rest => if is_space c then trim_start rest else s
  | EmptyString => s
  end.

(** [parseInt(s, 16)]: leading white space, an optional sign, an optional
    [0x]/[0X], then the longest run of hexadecimal digits; [NaN] when that
    run is empty. *)
Definition parseInt16 (s0 : string) : number :=
  let s1 := trim_start s0 in
  let '(neg, s2) :=
    match s1 with
    | String "-" rest => (true, rest)
    | String "+" rest => (false, rest)
    | _ => (false, s1)
    end in
  let s3 :=
    match s2 with
    | String "0" (String x rest) =>
        if (x =? "x")%char || (x =? "X")%char then rest else s2
    | _ => s2
    end in
  let '(v, seen) := hex_prefix s3 0 false in
  if seen then of_integer neg v else NaN.

(** [a >= b] on numbers: false as soon as one is [NaN]. *)
Definition ge (a b : number) : bool :=
  match a, b with
  | NaN, _ | _, NaN => false
  | PosInf, _ => true
  | _, NegInf => true
  | NegInf, _ => false
  | _, PosInf => false
  | Finite x, Finite y => (y <=? x)%Z
  end.

(** The integer read from a string of hexadecimal digits, with no rounding
    (what "read as an unsigned hexadecimal integer" means). *)
Definition hex_value (s : string) : Z := fst (hex_prefix s 0 false).

End JsNumber.

(* ------------------------------------------------------------------ *)
(** ** src/wallet/WalletController.ts *)
Module Wallet.
Import Rpc.

Module Work.
(** [interface Work] *)
Record Work := mkWork {
  hash : string;
  threshold : string;
  work : string
}.
End Work.

(** [interface ReceivableBlock]. Raw amounts are decimal strings handled by
    [TunedBigNumber]; they are modelled by the integers they denote. *)
Record ReceivableBlock := mkReceivableBlock {
  blockHash : string;
  amount : Z
}.

(** [interface NanoWalletState] *)
Record NanoWalletState := mkState {
  balance : Z;
  receivable : Z;
  receivableBlocks : list ReceivableBlock;
  frontier : option string;
  representative : option string;
  work : option Work.Work
}.

(** [defaultState] *)
Definition defaultState : NanoWalletState := mkState 0 0 [] None None None.

(** [Partial<NanoWalletState>]: [None] for a key the object does not have. *)
Record PartialState := mkPartial {
  p_balance : option Z;
  p_receivable : option Z;
  p_receivableBlocks : option (list ReceivableBlock);
  p_frontier : option (option string);
  p_representative : option (option string);
  p_work : option (option Work.Work)
}.

(** [Object.assign({}, this.internalState, state)] on the six keys. *)
Definition merge (s : NanoWalletState) (p : PartialState) : NanoWalletState :=
  mkState (default (balance s) (p_balance p))
          (default (receivable s) (p_receivable p))
          (default (receivableBlocks s) (p_receivableBlocks p))
          (default (frontier s) (p_frontier p))
          (default (representative s) (p_representative p))
          (default (work s) (p_work p)).

(** [{ work }] *)
Definition only_work (w : option Work.Work) : PartialState :=
  mkPartial None None None None None (Some w).

Module Block.
(** The block data handed to [createBlock]. *)
Record BlockData := mkBlockData {
  previous : option string;
  representative : string;
  balance : Z;
  link : option string;
  work : option string
}.
End Block.

(** Modelled from the spec: the module [@/Constants] that defines
    [SEND_DIFFICULTY] and [RECEIVE_DIFFICULTY] is not among the sources. The
    spec only says that the receive threshold is the lower one; the values
    are the network's published thresholds, hexadecimal strings. *)
Definition SEND_DIFFICULTY : string := "fffffff800000000".
Definition RECEIVE_DIFFICULTY : string := "fffffe0000000000".

(** [String.prototype.toUpperCase] on ASCII text (block hashes are
    hexadecimal). *)
Definition ascii_upper (c : ascii) : ascii :=
  let n := nat_of_ascii c in
  if Nat.leb 97 n && Nat.leb n 122 then ascii_of_nat (n - 32) else c.

Fixpoint toUpperCase (s : string) : string :=
  match s with
  | EmptyString => EmptyString
  | String c rest => String (ascii_upper c) (toUpperCase rest)
  end.

(** [a === b] on [string | null]. *)
Definition opt_eqb (a b : option string) : bool :=
  match a, b with
  | Some x, Some y => String.eqb x y
  | None, None => true
  | _, _ => false
  end.

(** JS truthiness of a [string | null]. *)
Definition truthy (a : option string) : bool :=
  match a with
  | Some x => negb (String.eqb x "")
  | None => false
  end.

(** The reuse test of [getWork]:
    [this.state.work?.hash === hash && parseInt(this.state.work.threshold, 16)
     >= parseInt(threshold, 16)]. *)
Definition cached_work (c : option Work.Work) (hash threshold : string)
  : option string :=
  match c with
  | Some c =>
      if String.eqb (Work.hash c) hash &&
         JsNumber.ge (JsNumber.parseInt16 (Work.threshold c))
                     (JsNumber.parseInt16 threshold)
      then Some (Work.work c) else None
  | None => None
  end.

(** [this.state.receivableBlocks.find(({ blockHash }) => blockHash === link)] *)
Definition find_receivable (link : string) (l : list ReceivableBlock)
  : option ReceivableBlock :=
  find (fun b => String.eqb (blockHash b) link) l.

(** The fields an operation commits: everything but the cached work. *)
Definition chain_view (s : NanoWalletState)
  : Z * Z * list ReceivableBlock * option string * option string :=
  (balance s, receivable s, receivableBlocks s, frontier s, representative s).

(** The account info fields [sync] reads. *)
Record AccountInfo := mkAccountInfo {
  ai_balance : Z;
  ai_frontier : string;
  ai_receivable : Z;
  ai_representative : string
}.

Section Controller.
(** The account, derived once in the constructor, and the configuration. *)
Variable privateKey publicKey account : string.
Variable precomputeWork : bool.
Variable minAmountRaw : Z.

(** The external block primitive of [nanocurrency]: [createBlock] gives
    the block representation and its hash, or throws; [validateWork]
    checks a work solution against a hash and a threshold. *)
Variable BlockRepr : Type.
Variable createBlock : string -> Block.BlockData -> result js_error (BlockRepr * string).
Variable validateWork : string -> string -> string -> bool.

(** The answers of the remote node to the [NanoRPC] methods (each a
    [postRPC], which may throw). [process] answers with the [hash] field of
    its response, [None] when the field is missing; [work_generate] with its
    [work] field; [receivable] with its [blocks] object, [None] when
    missing. *)
Variable rpc_accountInfo : string -> result js_error AccountInfo.
Variable rpc_receivable : string -> Z -> result js_error (option (list (string * Z))).
Variable rpc_workGenerate : string -> string -> result js_error (option string).
Variable rpc_process : BlockRepr -> string -> result js_error (option string).

(** What the wallet observably does: store updates and RPC requests. *)
Inductive rpc_request :=
| ReqAccountInfo (account : string)
| ReqReceivable (account : string) (threshold : Z)
| ReqWorkGenerate (hash difficulty : string)
| ReqProcess (block : BlockRepr) (work : string).

Inductive event :=
| EvUpdate (p : PartialState)
| EvRpc (r : rpc_request).

(** The wallet's mutable world: the store's snapshot, the closure variable
    [previousFrontier] of the precompute listener, [config.representative]
    and the log of what was done. *)
Record World := mkWorld {
  state : NanoWalletState;
  previousFrontier : option string;
  config_representative : string;
  trace : list event
}.

(** Operations run in a state and error monad over [World]. *)
Definition M (A : Type) := World -> result js_error A * World.

Definition ret {A} (a : A) : M A := fun w => (Ok a, w).
Definition throw {A} (msg : string) : M A := fun w => (Err (newError msg), w).
Definition bind {A B} (m : M A) (k : A -> M B) : M B := fun w =>
  match m w with
  | (Ok a, w') => k a w'
  | (Err e, w') => (Err e, w')
  end.
Definition get_world : M World := fun w => (Ok w, w).
Definition lift {A} (r : result js_error A) : M A := fun w =>
  match r with Ok a => (Ok a, w) | Err e => (Err e, w) end.

Local Notation "'let*' x := m 'in' k" := (bind m (fun x => k))
  (at level 200, x name, m at level 100, k at level 200).

Definition log (ev : event) (w : World) : World :=
  mkWorld (state w) (previousFrontier w) (config_representative w) (trace w ++ [ev]).

(** An awaited RPC: the request is issued, the node's answer returned. *)
Definition rpc {A} (req : rpc_request) (answer : result js_error A) : M A :=
  fun w => lift answer (log (EvRpc req) w).

(** The assignment of [update]: merge, then record the update. *)
Definition commit (p : PartialState) (w : World) : World :=
  mkWorld (merge (state w) p) (previousFrontier w) (config_representative w)
          (trace w ++ [EvUpdate p]).

(** The fire-and-forget [this.getWork(state.frontier, SEND_DIFFICULTY)] of
    the precompute listener, up to what it does synchronously: nothing on
    a cache hit, else the [work_generate] request it issues. Its completion
    is asynchronous and is not part of this sequential model. *)
Definition precompute_start (h : string) (w : World) : World :=
  match cached_work (work (state w)) h SEND_DIFFICULTY with
  | Some _ => w
  | None => log (EvRpc (ReqWorkGenerate h SEND_DIFFICULTY)) w
  end.

(** The second [if] of the listener, and [previousFrontier = state.frontier]. *)
Definition precompute_check (s : NanoWalletState) (w : World) : World :=
  let w1 :=
    match frontier s with
    | Some f =>
        if truthy (Some f) && negb (opt_eqb (Some f) (previousFrontier w)) &&
           match work s with
           | None => true
           | Some c => negb (String.eqb (Work.hash c) f)
           end
        then precompute_start f w else w
    | None => w
    end in
  mkWorld (state w1) (frontier s) (config_representative w1) (trace w1).

(** The listener the constructor subscribes when [precomputeWork] is set,
    run on the snapshot [s] it is notified with. Its nested
    [this.update({ work: null })] notifies it again, synchronously, on the
    new snapshot, where the first [if] no longer fires. *)
Definition listener (s : NanoWalletState) (w : World) : World :=
  let w1 :=
    match work s with
    | Some c =>
        if opt_eqb (Some (Work.hash c)) (frontier s) then w
        else let w' := commit (only_work None) w in precompute_check (state w') w'
    | None => w
    end in
  precompute_check s w1.

(** [this.update(partial)]: assign, then notify the subscribed listener. *)
Definition update (p : PartialState) : M unit := fun w =>
  let w' := commit p w in
  (Ok tt, if precomputeWork then listener (state w') w' else w').

(** [workGenerate(hash, threshold)] *)
Definition workGenerate (hash threshold : string) : M string :=
  let* r := rpc (ReqWorkGenerate hash threshold) (rpc_workGenerate hash threshold) in
  match r with
  | None => throw "No work"
  | Some work =>
      if String.eqb work "" then throw "No work"
      else if validateWork work hash threshold then ret work
      else throw "Invalid work"
  end.

(** [getWork(hash, threshold)] *)
Definition getWork (hash threshold : string) : M string :=
  let* w := get_world in
  match cached_work (work (state w)) hash threshold with
  | Some cached => ret cached
  | None =>
      let* work := workGenerate hash threshold in
      let* _ := update (only_work (Some (Work.mkWork hash threshold work))) in
      ret work
  end.

(** [getReceivable()] *)
Definition getReceivable : M (list ReceivableBlock * Z) :=
  let* r := rpc (ReqReceivable account minAmountRaw)
                (rpc_receivable account minAmountRaw) in
  let blocks := default [] r in
  let receivableBlocks := map (fun '(h, a) => mkReceivableBlock h a) blocks in
  let receivable := fold_left (fun acc '(_, a) => (acc + a)%Z) blocks 0%Z in
  let* _ := update (mkPartial None (Some receivable) (Some receivableBlocks)
                              None None None) in
  ret (receivableBlocks, receivable).

(** [sync()]: the [try] block, and the [catch] that swallows an error
    whose message is ['Account not found']. *)
Definition sync_try : M unit :=
  let* info := rpc (ReqAccountInfo account) (rpc_accountInfo account) in
  let* _ := update (mkPartial (Some (ai_balance info)) (Some (ai_receivable info))
                              None (Some (Some (ai_frontier info)))
                              (Some (Some (ai_representative info))) None) in
  let* _ := getReceivable in
  ret tt.

Definition sync : M unit := fun w =>
  match sync_try w with
  | (Err e, w') =>
      if String.eqb (err_message e) "Account not found" then (Ok tt, w')
      else (Err e, w')
  | r => r
  end.

(** The submission and integrity check shared by the four operations:
    [await this.rpc.process({...block, work})] then
    [if (processed.hash !== hash) throw new Error('Block hash mismatch')]. *)
Definition process_checked (block : BlockRepr) (work hash : string) : M unit :=
  let* processed := rpc (ReqProcess block work) (rpc_process block work) in
  if opt_eqb processed (Some hash) then ret tt else throw "Block hash mismatch".

(** [receive(link)] *)
Definition receive (link0 : string) : M string :=
  let link := toUpperCase link0 in
  let* w := get_world in
  let s := state w in
  match find_receivable link (receivableBlocks s) with
  | None => throw "No receivable block"
  | Some rb =>
      let amount := amount rb in
      let balance := (balance s + amount)%Z in
      let* bh := lift (createBlock privateKey
                   (Block.mkBlockData (frontier s) (config_representative w)
                                      balance (Some link) None)) in
      let '(block, hash) := bh in
      let frontier := if truthy (frontier s) then default publicKey (frontier s)
                      else publicKey in
      let* work := getWork frontier RECEIVE_DIFFICULTY in
      let* _ := process_checked block work hash in
      let* w2 := get_world in
      let receivableBlocks :=
        filter (fun b => negb (String.eqb (blockHash b) link))
               (receivableBlocks (state w2)) in
      let receivable := (receivable (state w2) - amount)%Z in
      let* _ := update (mkPartial (Some balance) (Some receivable)
                                  (Some receivableBlocks) (Some (Some hash))
                                  None None) in
      ret hash
  end.

(** [send(to, amount)] *)
Definition send (to : string) (amount : Z) : M string :=
  let* w := get_world in
  let s := state w in
  match frontier s with
  | None => throw "No frontier"
  | Some f =>
      let balance := (balance s - amount)%Z in
      let* bh := lift (createBlock privateKey
                   (Block.mkBlockData (Some f) (config_representative w)
                                      balance (Some to) None)) in
      let '(block, hash) := bh in
      let* work := getWork f SEND_DIFFICULTY in
      let* _ := process_checked block work hash in
      let* _ := update (mkPartial (Some balance) None None (Some (Some hash))
                                  None None) in
      ret hash
  end.

(** [sweep(to)] *)
Definition sweep (to : string) : M string :=
  let* w := get_world in
  let s := state w in
  match frontier s with
  | None => throw "No frontier"
  | Some f =>
      let* bh := lift (createBlock privateKey
                   (Block.mkBlockData (Some f) (config_representative w)
                                      0 (Some to) None)) in
      let '(block, hash) := bh in
      let* work := getWork f SEND_DIFFICULTY in
      let* _ := process_checked block work hash in
      let* _ := update (mkPartial (Some 0%Z) None None (Some (Some hash))
                                  None None) in
      ret hash
  end.

(** [this.configure({ representative })] *)
Definition configure_representative (r : string) : M unit := fun w =>
  (Ok tt, mkWorld (state w) (previousFrontier w) r (trace w)).

(** [setRepresentative(account?)] *)
Definition setRepresentative (acct : option string) : M string :=
  let* w := get_world in
  let s := state w in
  match frontier s with
  | None => throw "No frontier"
  | Some f =>
      let representative :=
        if truthy acct then default (config_representative w) acct
        else config_representative w in
      let* bh := lift (createBlock privateKey
                   (Block.mkBlockData (Some f) representative
                                      (balance s) None None)) in
      let '(block, hash) := bh in
      let* work := getWork f SEND_DIFFICULTY in
      let* _ := process_checked block work hash in
      let* _ := update (mkPartial (Some 0%Z) None None (Some (Some hash))
                                  (Some (Some representative)) None) in
      let* _ := configure_representative representative in
      ret hash
  end.
(** A stretch of a run that leaves the committed fields and the
    configured representative as they were, and whose store updates, if
    any, all write the cached work only. *)
Definition work_only_step (w w' : World) : Prop :=
  chain_view (state w') = chain_view (state w) /\
  config_representative w' = config_representative w /\
  exists added, trace w' = (trace w ++ added)%list /\
    forall p, In (EvUpdate p) added -> exists wo, p = only_work wo.

Definition is_process_request (ev : event) : bool :=
  match ev with
  | EvRpc (ReqProcess _ _) => true
  | _ => false
  end.

(** The node reports, for every submitted block, a hash other than the
    one computed locally. *)
Definition node_substitutes_hash : Prop :=
  forall pk d blk h wk, createBlock pk d = Ok (blk, h) ->
    exists p, rpc_process blk wk = Ok p /\ p <> Some h.

(** A stretch of a run that submits no block. *)
Definition no_submission (w w' : World) : Prop :=
  exists added, trace w' = (trace w ++ added)%list /\
    forall ev, In ev added -> is_process_request ev = false.

(** A stretch of a run that neither commits nor submits. *)
Definition quiet (w w' : World) : Prop :=
  work_only_step w w' /\ no_submission w w'.

(** The outcome of an operation whose submitted block the node reports
    under another hash: the call fails, with ['Block hash mismatch'] once
    the block was submitted, and nothing but the cached work was
    written. *)
Definition mismatch_outcome (w : World) (rw : result js_error string * World)
  : Prop :=
  let '(r, w') := rw in
  work_only_step w w' /\
  (r = Err (newError "Block hash mismatch") \/
   (exists e, r = Err e) /\ no_submission w w').
End Controller.

Arguments ReqAccountInfo {BlockRepr} account.
Arguments ReqReceivable {BlockRepr} account threshold.
Arguments ReqWorkGenerate {BlockRepr} hash difficulty.
Arguments ReqProcess {BlockRepr} block work.
Arguments EvUpdate {BlockRepr} p.
Arguments EvRpc {BlockRepr} r.
Arguments mkWorld {BlockRepr} state previousFrontier config_representative trace.
Arguments state {BlockRepr} w.
Arguments previousFrontier {BlockRepr} w.
Arguments config_representative {BlockRepr} w.
Arguments trace {BlockRepr} w.

End Wallet.

(* ================================================================== *)
(** * Sample configuration *)

(** A concrete wallet for running the operations: block data as the block
    representation, a [createBlock] that refuses a negative balance (as
    [nanocurrency]'s does, with ['Balance is not valid']) and otherwise
    names the block ["H1"], a worker that always answers ["W"], and nodes
    that answer the submission with the local hash or another one. *)
Module Sample.
Import Rpc.
Import Wallet.

Definition createBlock (pk : string) (d : Block.BlockData)
  : result js_error (Block.BlockData * string) :=
  if (Block.balance d <? 0)%Z then Err (newError "Balance is not valid")
  else Ok (d, "H1").

Definition validateWork (work hash threshold : string) : bool := true.

Definition workGenerate (hash threshold : string) : result js_error (option string) :=
  Ok (Some "W").

Definition process_honest (b : Block.BlockData) (work : string)
  : result js_error (option string) := Ok (Some "H1").

Definition process_substituting (b : Block.BlockData) (work : string)
  : result js_error (option string) := Ok (Some "H2").

Definition accountInfo_not_found (acct : string) : result js_error AccountInfo :=
  Err (newError "Account not found").

Definition receivable_none (acct : string) (threshold : Z)
  : result js_error (option (list (string * Z))) := Ok None.

(** The [work_generate] requests of a log: hash and difficulty. *)
Fixpoint work_requests (t : list (event Block.BlockData)) : list (string * string) :=
  match t with
  | [] => []
  | EvRpc (ReqWorkGenerate h d) :: t' => (h, d) :: work_requests t'
  | _ :: t' => work_requests t'
  end.

(** An opened account: balance 5, one receivable block ["L1"] of 3, frontier
    ["F"], no cached work, configured representative ["R"]. *)
Definition w0 : World Block.BlockData :=
  mkWorld (mkState 5 3 [mkReceivableBlock "L1" 3] (Some "F") (Some "R0") None)
          (Some "F") "R" [].

(** A wallet whose account is not opened yet: no frontier. *)
Definition w_unopened : World Block.BlockData :=
  mkWorld (mkState 0 0 [] None None None) None "R" [].

(** A node that lists two receivable blocks, of 2 and 5. *)
Definition receivable_two (acct : string) (threshold : Z)
  : result js_error (option (list (string * Z))) := Ok (Some [("A", 2); ("B", 5)]%Z).

(** A node whose [receivable] request fails. *)
Definition receivable_down (acct : string) (threshold : Z)
  : result js_error (option (list (string * Z))) := Err (newError "Internal error").

(** A node that knows the account: balance 9, frontier ["G"], receivable 4,
    representative ["R1"]. *)
Definition accountInfo_ok (acct : string) : result js_error AccountInfo :=
  Ok (mkAccountInfo 9 "G" 4 "R1").

(** A partial state that moves the frontier to ["G"]. *)
Definition to_frontier_G : PartialState :=
  mkPartial None None None (Some (Some "G")) None None.
End Sample.

(* ================================================================== *)
(** * Properties *)

(* ------------------------------------------------------------------ *)
(** ** Endpoint failover *)
Module RpcProps.
Import Rpc.

Lemma skipn_nth_error {A} (l : list A) n (x : A) :
  nth_error l n = Some x -> skipn n l = x :: skipn (S n) l.
Proof.
  revert n. induction l as [|y l IH]; intros [|n] H; simpl in *; try discriminate.
  - now inversion H.
  - now apply IH.
Qed.

Lemma nth_error_lt {A} (l : list A) n : n < length l -> exists x, nth_error l n = Some x.
Proof.
  intros H. destruct (nth_error l n) eqn:E; [eauto|].
  apply nth_error_None in E. lia.
Qed.

Section Failover.
Variable net : option string -> fetch_outcome.
Variable urls : list string.

(** Every call fetches a run of consecutive endpoints, starting at
    [urls[retry]], at least one and never past the end of the list. *)
Lemma postRPC_go_tried fuel : forall retry,
  retry < length urls ->
  exists k, 1 <= k /\ retry + k <= length urls /\
    snd (postRPC_go net urls fuel retry) = map Some (firstn k (skipn retry urls)).
Proof.
  induction fuel as [|fuel IH]; intros retry Hr;
    destruct (nth_error_lt urls retry Hr) as [u Hu];
    pose proof (skipn_nth_error _ _ _ Hu) as Hs; simpl; rewrite Hu, Hs.
  - destruct (attempt (net (Some u))); [|destruct (_ && _)];
      exists 1; simpl; repeat split; lia.
  - destruct (attempt (net (Some u))) as [v|e].
    + exists 1; simpl; repeat split; lia.
    + destruct (isRetryableError e && _)%bool eqn:Hc.
      * apply andb_true_iff in Hc as [_ Hc]. apply Z.ltb_lt in Hc.
        destruct (IH (S retry)) as [k [Hk1 [Hk2 Hk3]]]; [lia|].
        destruct (postRPC_go net urls fuel (S retry)) as [r tried] eqn:Eg.
        simpl in Hk3 |- *. exists (S k). repeat split; try lia.
        simpl. now rewrite Hk3.
      * exists 1; simpl; repeat split; lia.
Qed.

Lemma postRPC_go_eq f retry :
  postRPC_go net urls f retry =
  match attempt (net (nth_error urls retry)) with
  | Ok body => (Ok body, [nth_error urls retry])
  | Err e =>
      if isRetryableError e &&
         (Z.of_nat retry <? Z.of_nat (length urls) - 1)%Z
      then match f with
           | S f' => let '(r, tried) := postRPC_go net urls f' (S retry) in
                     (r, nth_error urls retry :: tried)
           | O => (Err e, [nth_error urls retry])
           end
      else (Err e, [nth_error urls retry])
  end.
Proof. destruct f; reflexivity. Qed.

(** An error that is not retryable is raised after the one attempt. *)
Lemma postRPC_go_no_retry f retry e :
  attempt (net (nth_error urls retry)) = Err e ->
  isRetryableError e = false ->
  postRPC_go net urls f retry = (Err e, [nth_error urls retry]).
Proof. intros Ha Hr. rewrite postRPC_go_eq, Ha, Hr. reflexivity. Qed.

Lemma postRPC_go_S f retry :
  postRPC_go net urls (S f) retry =
  match attempt (net (nth_error urls retry)) with
  | Ok body => (Ok body, [nth_error urls retry])
  | Err e =>
      if isRetryableError e &&
         (Z.of_nat retry <? Z.of_nat (length urls) - 1)%Z
      then let '(r, tried) := postRPC_go net urls f (S retry) in
           (r, nth_error urls retry :: tried)
      else (Err e, [nth_error urls retry])
  end.
Proof. reflexivity. Qed.

(** The fuel of [postRPC] never runs out: with [fuel] at least the number
    of endpoints left after [retry], one more unit changes nothing. *)
Lemma postRPC_go_fuel fuel : forall retry,
  length urls <= retry + fuel + 1 ->
  postRPC_go net urls (S fuel) retry = postRPC_go net urls fuel retry.
Proof.
  induction fuel as [|fuel IH]; intros retry Hf.
  - rewrite (postRPC_go_S 0 retry). simpl. destruct (attempt _) as [v|e]; [reflexivity|].
    destruct (isRetryableError e) eqn:He; simpl; [|reflexivity].
    destruct (Z.ltb_spec (Z.of_nat retry) (Z.of_nat (length urls) - 1)); [lia|reflexivity].
  - rewrite (postRPC_go_S (S fuel) retry), (postRPC_go_S fuel retry).
    destruct (attempt _) as [v|e]; [reflexivity|].
    destruct (isRetryableError e && _)%bool; [|reflexivity].
    rewrite IH by lia. reflexivity.
Qed.
End Failover.

End RpcProps.

Module RpcClaims.
Import Rpc RpcProps.

(** C2 (code bug): [isRetryableError] lists the messages ['bad status in
    response'] and ['bad json in response'], but its [DOMException] test
    guards all three alternatives, and [postRPC] throws those two as plain
    [Error]s: with two endpoints where the first answers with a bad status
    (or a body that is not JSON) and the second answers, [postRPC] raises
    after one attempt instead of returning the second answer after two.
    The retry itself works: an [AbortError] at the first endpoint does move
    on to the second. *)
Theorem postRPC_bad_response_not_retried :
  let second := FetchResponse true (Some (BodyValue "ok")) in
  let net (first : fetch_outcome) (u : option string) :=
    if String.eqb (default "" u) "http://a" then first else second in
  attempt second = Ok "ok" /\
  postRPC (net (FetchResponse false None)) ["http://a"; "http://b"] =
    (Err (newError "bad status in response"), [Some "http://a"]) /\
  postRPC (net (FetchResponse true None)) ["http://a"; "http://b"] =
    (Err (newError "bad json in response"), [Some "http://a"]) /\
  isRetryableError (newError "bad status in response") = false /\
  isRetryableError (newError "bad json in response") = false /\
  isRetryableError (mkError true "Error" "bad status in response") = true /\
  postRPC (net (FetchRejects abortError)) ["http://a"; "http://b"] =
    (Ok "ok", [Some "http://a"; Some "http://b"]).
Proof. vm_compute. repeat split. Qed.

End RpcClaims.

(* ------------------------------------------------------------------ *)
(** ** Construction of the RPC client *)
Module RpcCtorClaims.
Import Rpc.

(** C8: the emptiness tests of the constructor compare [length < 0], which
    never holds: empty endpoint lists are accepted, whatever the URL
    parser says, and the client is built with no endpoint at all. *)
Theorem NanoRPC_new_accepts_empty_lists (url_parses : string -> bool) (t : Z) :
  NanoRPC_new url_parses (UrlArray []) (UrlArray []) t = Ok (mkNanoRPC [] [] t) /\
  NanoRPC_new url_parses (UrlArray []) (UrlString "http://[::1]:7076") t =
    if url_parses "http://[::1]:7076"
    then Ok (mkNanoRPC [] ["http://[::1]:7076"] t)
    else Err (newError "Invalid workers address: http://[::1]:7076").
Proof. split; [reflexivity|]. unfold NanoRPC_new. simpl. now destruct (url_parses _). Qed.

End RpcCtorClaims.

(* ------------------------------------------------------------------ *)
(** ** The state store *)
Module StoreClaims.
Import Store.

Lemma first_rejection_none ps :
  first_rejection ps = None -> forall p, In p ps -> exists t, p = Fulfilled t.
Proof.
  induction ps as [|[t|t] ps IH]; simpl; intros H p Hp; [contradiction| |].
  - destruct Hp as [<-|Hp]; [eauto|]. now apply IH.
  - destruct (first_rejection ps); discriminate.
Qed.

Lemma last_fulfillment_ge ps t : In (Fulfilled t) ps -> t <= last_fulfillment ps.
Proof.
  induction ps as [|[t'|t'] ps IH]; simpl; intros Hp; [contradiction| |].
  - destruct Hp as [Hp|Hp]; [inversion Hp; lia|]. specialize (IH Hp). lia.
  - destruct Hp as [Hp|Hp]; [discriminate|]. now apply IH.
Qed.

(** [Promise.all] fulfills only once every promise has fulfilled. *)
Lemma promise_all_fulfilled ps T :
  promise_all ps = Fulfilled T ->
  forall p, In p ps -> exists t, p = Fulfilled t /\ t <= T.
Proof.
  unfold promise_all. destruct (first_rejection ps) eqn:E; [discriminate|].
  intros HT p Hp. inversion HT; subst.
  destruct (first_rejection_none ps E p Hp) as [t ->].
  exists t. split; [reflexivity|]. now apply last_fulfillment_ge.
Qed.

(** C9: [update(P, false)] commits [P] shallow-merged into the snapshot
    (keys absent from [P] keep their values), [update(P, true)] commits [P]
    itself; the committed snapshot is what every listener is called with,
    and the update fulfills only once every listener's promise has. *)
Theorem update_merge_commit_notify {V : Type} (c : BaseController (V:=V))
    (P : gmap string V) (overwrite : bool) :
  let '(c', calls, r) := update c P overwrite false in
  internalState c' = (if overwrite then P else P ∪ internalState c) /\
  (overwrite = false ->
     forall k, P !! k = None -> internalState c' !! k = internalState c !! k) /\
  internalListeners c' = internalListeners c /\
  calls = map (fun _ => internalState c') (internalListeners c) /\
  (forall T, r = Fulfilled T ->
     forall l, In l (internalListeners c) ->
       exists t, l (internalState c') false = Fulfilled t /\ t <= T).
Proof.
  unfold update, notify, object_assign. simpl.
  set (s' := if overwrite then P ∪ ∅ else P ∪ internalState c).
  assert (Hs : s' = (if overwrite then P else P ∪ internalState c)).
  { unfold s'. destruct overwrite; [apply map_union_empty|reflexivity]. }
  repeat split.
  - exact Hs.
  - intros Ho k Hk. rewrite Hs, Ho. rewrite lookup_union, Hk.
    destruct (internalState c !! k); reflexivity.
  - intros T HT l Hl.
    apply (promise_all_fulfilled _ T HT). apply in_map_iff. eauto.
Qed.

End StoreClaims.

(* ------------------------------------------------------------------ *)
(** ** The wallet controller *)
Module WalletProps.
Import Rpc.
Import Wallet.

Lemma ascii_upper_idem c : ascii_upper (ascii_upper c) = ascii_upper c.
Proof.
  unfold ascii_upper.
  destruct (Nat.leb 97 (nat_of_ascii c) && Nat.leb (nat_of_ascii c) 122) eqn:E;
    [|now rewrite E].
  apply andb_true_iff in E as [E1 E2].
  apply Nat.leb_le in E1. apply Nat.leb_le in E2.
  rewrite nat_ascii_embedding by lia.
  replace (Nat.leb 97 (nat_of_ascii c - 32)) with false; [reflexivity|].
  symmetry. apply Nat.leb_gt. lia.
Qed.

Lemma toUpperCase_idem s : toUpperCase (toUpperCase s) = toUpperCase s.
Proof. induction s as [|c s IH]; simpl; [reflexivity|]. now rewrite ascii_upper_idem, IH. Qed.

Section Steps.
Variable BlockRepr : Type.
Implicit Types w : World BlockRepr.
Local Abbreviation quiet := (Wallet.quiet BlockRepr).

Lemma work_only_step_refl w : work_only_step BlockRepr w w.
Proof.
  repeat split. exists []. rewrite app_nil_r. split; [reflexivity|]. intros p [].
Qed.

Lemma work_only_step_trans w1 w2 w3 :
  work_only_step BlockRepr w1 w2 -> work_only_step BlockRepr w2 w3 ->
  work_only_step BlockRepr w1 w3.
Proof.
  intros [H1 [H2 [a1 [Ht1 Ha1]]]] [H3 [H4 [a2 [Ht2 Ha2]]]].
  split; [congruence|]. split; [congruence|].
  exists (a1 ++ a2)%list. split; [now rewrite Ht2, Ht1, app_assoc|].
  intros p Hp. apply in_app_or in Hp as [Hp|Hp]; auto.
Qed.

Lemma no_submission_refl w : no_submission BlockRepr w w.
Proof. exists []. rewrite app_nil_r. split; [reflexivity|]. intros ev []. Qed.

Lemma no_submission_trans w1 w2 w3 :
  no_submission BlockRepr w1 w2 -> no_submission BlockRepr w2 w3 ->
  no_submission BlockRepr w1 w3.
Proof.
  intros [a1 [Ht1 Ha1]] [a2 [Ht2 Ha2]].
  exists (a1 ++ a2)%list. split; [now rewrite Ht2, Ht1, app_assoc|].
  intros ev Hev. apply in_app_or in Hev as [Hev|Hev]; auto.
Qed.

Lemma quiet_refl w : quiet w w.
Proof. split; [apply work_only_step_refl|apply no_submission_refl]. Qed.

Lemma quiet_trans w1 w2 w3 : quiet w1 w2 -> quiet w2 w3 -> quiet w1 w3.
Proof.
  intros [A B] [C D]. split; [eapply work_only_step_trans|eapply no_submission_trans]; eauto.
Qed.

Lemma log_rpc_work_only w r : work_only_step BlockRepr w (log BlockRepr (EvRpc r) w).
Proof.
  split; [reflexivity|]. split; [reflexivity|].
  exists [EvRpc r]. split; [reflexivity|]. intros p [Hp|[]]; discriminate.
Qed.

Lemma log_work_quiet w h t :
  quiet w (log BlockRepr (EvRpc (ReqWorkGenerate h t)) w).
Proof.
  split; [apply log_rpc_work_only|].
  exists [EvRpc (ReqWorkGenerate h t)]. split; [reflexivity|].
  intros ev [<-|[]]. reflexivity.
Qed.

Lemma commit_work_quiet w wo : quiet w (commit BlockRepr (only_work wo) w).
Proof.
  split.
  - split; [reflexivity|]. split; [reflexivity|].
    exists [EvUpdate (only_work wo)]. split; [reflexivity|].
    intros p [Hp|[]]. inversion Hp. eauto.
  - exists [EvUpdate (only_work wo)]. split; [reflexivity|].
    intros ev [<-|[]]. reflexivity.
Qed.

(** [previousFrontier] is the listener's own variable, not store state. *)
Lemma set_previous_quiet w f :
  quiet w (mkWorld (state w) f (config_representative w) (trace w)).
Proof.
  split.
  - split; [reflexivity|]. split; [reflexivity|].
    exists []. rewrite app_nil_r. split; [reflexivity|]. intros p [].
  - exists []. rewrite app_nil_r. split; [reflexivity|]. intros ev [].
Qed.

Lemma precompute_start_quiet h w : quiet w (precompute_start BlockRepr h w).
Proof.
  unfold precompute_start. destruct (cached_work _ _ _).
  - apply quiet_refl.
  - apply log_work_quiet.
Qed.

Lemma precompute_check_quiet s w : quiet w (precompute_check BlockRepr s w).
Proof.
  unfold precompute_check.
  eapply quiet_trans; [|apply set_previous_quiet].
  destruct (frontier s) as [f|]; [|apply quiet_refl].
  destruct (_ && _)%bool; [apply precompute_start_quiet|apply quiet_refl].
Qed.

Lemma listener_quiet s w : quiet w (listener BlockRepr s w).
Proof.
  unfold listener. eapply quiet_trans; [|apply precompute_check_quiet].
  destruct (work s) as [c|]; [|apply quiet_refl].
  destruct (opt_eqb _ _); [apply quiet_refl|].
  eapply quiet_trans; [apply commit_work_quiet|apply precompute_check_quiet].
Qed.

Lemma update_work_quiet pre wo w :
  exists w', update pre BlockRepr (only_work wo) w = (Ok tt, w') /\ quiet w w'.
Proof.
  unfold update. eexists. split; [reflexivity|].
  destruct pre; [|apply commit_work_quiet].
  eapply quiet_trans; [apply commit_work_quiet|apply listener_quiet].
Qed.

(** Any update: what it commits is the merge, up to the cached work the
    listener may reset, and it submits nothing. *)
Lemma update_effect pre p w :
  exists w', update pre BlockRepr p w = (Ok tt, w') /\
    chain_view (state w') = chain_view (merge (state w) p) /\
    config_representative w' = config_representative w /\
    no_submission BlockRepr w w'.
Proof.
  unfold update. eexists. split; [reflexivity|].
  assert (Hc : no_submission BlockRepr w (commit BlockRepr p w)).
  { exists [EvUpdate p]. split; [reflexivity|]. intros ev [<-|[]]. reflexivity. }
  destruct pre.
  - destruct (listener_quiet (state (commit BlockRepr p w)) (commit BlockRepr p w))
      as [[H1 [H2 _]] H3].
    split; [exact H1|]. split; [exact H2|]. eapply no_submission_trans; eauto.
  - split; [reflexivity|]. split; [reflexivity|]. exact Hc.
Qed.
End Steps.

Lemma opt_eqb_true a b : opt_eqb a b = true <-> a = b.
Proof.
  destruct a as [x|], b as [y|]; simpl; split; intros H; try congruence.
  - apply String.eqb_eq in H. now subst.
  - inversion H. apply String.eqb_refl.
Qed.

Section Ops.
Variables (privateKey publicKey account : string) (precomputeWork : bool).
Variable minAmountRaw : Z.
Variable BlockRepr : Type.
Variable createBlock : string -> Block.BlockData -> result js_error (BlockRepr * string).
Variable validateWork : string -> string -> string -> bool.
Variable rpc_accountInfo : string -> result js_error AccountInfo.
Variable rpc_receivable : string -> Z -> result js_error (option (list (string * Z))).
Variable rpc_workGenerate : string -> string -> result js_error (option string).
Variable rpc_process : BlockRepr -> string -> result js_error (option string).

Local Abbreviation World := (World BlockRepr).
Local Abbreviation quiet := (Wallet.quiet BlockRepr).
Local Abbreviation node_substitutes_hash :=
  (Wallet.node_substitutes_hash BlockRepr createBlock rpc_process).
Local Abbreviation workGenerate :=
  (Wallet.workGenerate BlockRepr validateWork rpc_workGenerate).
Local Abbreviation getWork :=
  (Wallet.getWork precomputeWork BlockRepr validateWork rpc_workGenerate).
Local Abbreviation process_checked := (Wallet.process_checked BlockRepr rpc_process).
Local Abbreviation receive := (Wallet.receive privateKey publicKey precomputeWork
  BlockRepr createBlock validateWork rpc_workGenerate rpc_process).
Local Abbreviation send := (Wallet.send privateKey precomputeWork
  BlockRepr createBlock validateWork rpc_workGenerate rpc_process).
Local Abbreviation sweep := (Wallet.sweep privateKey precomputeWork
  BlockRepr createBlock validateWork rpc_workGenerate rpc_process).
Local Abbreviation setRepresentative := (Wallet.setRepresentative privateKey
  precomputeWork BlockRepr createBlock validateWork rpc_workGenerate rpc_process).
Local Abbreviation sync := (Wallet.sync account precomputeWork minAmountRaw
  BlockRepr rpc_accountInfo rpc_receivable).
Local Abbreviation mismatch_outcome := (Wallet.mismatch_outcome BlockRepr).

Lemma workGenerate_quiet h t (w : World) : quiet w (snd (workGenerate h t w)).
Proof.
  unfold Wallet.workGenerate, bind, rpc, lift.
  destruct (rpc_workGenerate h t) as [[wk|]|e]; simpl; try apply log_work_quiet.
  destruct (String.eqb wk ""); [apply log_work_quiet|].
  destruct (validateWork wk h t); apply log_work_quiet.
Qed.

Lemma getWork_quiet h t (w : World) : quiet w (snd (getWork h t w)).
Proof.
  unfold Wallet.getWork, bind at 1, get_world.
  destruct (cached_work _ _ _) as [c|]; [apply quiet_refl|].
  unfold bind at 1.
  pose proof (workGenerate_quiet h t w) as Q.
  destruct (workGenerate h t w) as [[wk|e] w1]; [|exact Q].
  unfold bind.
  destruct (update_work_quiet BlockRepr precomputeWork
              (Some (Work.mkWork h t wk)) w1) as [w2 [-> Q2]].
  simpl. eapply quiet_trans; eauto.
Qed.

Lemma process_checked_mismatch blk wk h p (w : World) :
  rpc_process blk wk = Ok p -> p <> Some h ->
  process_checked blk wk h w =
    (Err (newError "Block hash mismatch"), log BlockRepr (EvRpc (ReqProcess blk wk)) w).
Proof.
  intros Hp Hne. unfold Wallet.process_checked, bind, rpc, lift. rewrite Hp.
  destruct (opt_eqb p (Some h)) eqn:E; [|reflexivity].
  apply opt_eqb_true in E. contradiction.
Qed.

Lemma process_checked_ok blk wk h (w : World) :
  rpc_process blk wk = Ok (Some h) ->
  process_checked blk wk h w = (Ok tt, log BlockRepr (EvRpc (ReqProcess blk wk)) w).
Proof.
  intros Hp. unfold Wallet.process_checked, bind, rpc, lift. rewrite Hp.
  simpl. now rewrite String.eqb_refl.
Qed.

(** The common tail of the four operations: work acquisition, then
    submission, against a node that substitutes the hash. *)
Lemma work_then_submit_mismatch (Hmis : node_substitutes_hash) pk d blk h f t
    (k : unit -> M BlockRepr string) (w : World) :
  createBlock pk d = Ok (blk, h) ->
  mismatch_outcome w
    (bind BlockRepr (getWork f t)
       (fun work => bind BlockRepr (process_checked blk work h) k) w).
Proof.
  intros Hcb. unfold bind at 1.
  pose proof (getWork_quiet f t w) as [Q1 Q2].
  destruct (getWork f t w) as [[wk|e] w1]; simpl in Q1, Q2.
  - destruct (Hmis pk d blk h wk Hcb) as [p [Hp Hne]].
    unfold bind. rewrite (process_checked_mismatch blk wk h p w1 Hp Hne).
    split; [|now left].
    eapply work_only_step_trans; [exact Q1|apply log_rpc_work_only].
  - split; [exact Q1|]. right. split; [eauto|exact Q2].
Qed.

Lemma mismatch_outcome_fail_early (w : World) e :
  mismatch_outcome w (Err e, w).
Proof.
  split; [apply work_only_step_refl|]. right. split; [eauto|apply no_submission_refl].
Qed.

(** C1 (amended): when the node answers the submission of send, sweep,
    setRepresentative or receive with a hash other than the locally
    computed one, the call fails (with ['Block hash mismatch'] once the
    block was submitted, or earlier with the error of block construction
    or work acquisition), frontier, balance, receivable, receivableBlocks,
    representative and the configured representative are as before, and
    the only store updates the call made write the cached work. *)
Theorem chain_ops_hash_mismatch_commit_nothing
    (Hmis : node_substitutes_hash) (w : World) to amount acct link :
  mismatch_outcome w (send to amount w) /\
  mismatch_outcome w (sweep to w) /\
  mismatch_outcome w (setRepresentative acct w) /\
  mismatch_outcome w (receive link w).
Proof.
  repeat split.
  - unfold Wallet.send, bind at 1, get_world.
    destruct (frontier (state w)) as [f|]; [|apply mismatch_outcome_fail_early].
    unfold bind at 1, lift.
    destruct (createBlock _ _) as [[blk h]|e] eqn:Hcb; [|apply mismatch_outcome_fail_early].
    eapply work_then_submit_mismatch; eauto.
  - unfold Wallet.sweep, bind at 1, get_world.
    destruct (frontier (state w)) as [f|]; [|apply mismatch_outcome_fail_early].
    unfold bind at 1, lift.
    destruct (createBlock _ _) as [[blk h]|e] eqn:Hcb; [|apply mismatch_outcome_fail_early].
    eapply work_then_submit_mismatch; eauto.
  - unfold Wallet.setRepresentative, bind at 1, get_world.
    destruct (frontier (state w)) as [f|]; [|apply mismatch_outcome_fail_early].
    unfold bind at 1, lift.
    destruct (createBlock _ _) as [[blk h]|e] eqn:Hcb; [|apply mismatch_outcome_fail_early].
    eapply work_then_submit_mismatch; eauto.
  - unfold Wallet.receive, bind at 1, get_world.
    destruct (find_receivable _ _) as [rb|]; [|apply mismatch_outcome_fail_early].
    unfold bind at 1, lift.
    destruct (createBlock _ _) as [[blk h]|e] eqn:Hcb; [|apply mismatch_outcome_fail_early].
    eapply work_then_submit_mismatch; eauto.
Qed.

(** C3: when [balance - amount] is negative, [send] fails before any
    request and leaves the whole world (state, log) as it was: no work
    request, no submission, no update. The rejection is the one of
    [nanocurrency]'s [createBlock], which throws ['Balance is not valid']
    for a balance that is not a non-negative decimal amount; [send] itself
    calls it before any [await]. *)
Theorem send_negative_balance_fails_fast
    (Hcb : forall pk d, (Block.balance d < 0)%Z -> exists e, createBlock pk d = Err e)
    (w : World) to amount
    (Hneg : (balance (state w) - amount < 0)%Z) :
  exists e, send to amount w = (Err e, w).
Proof.
  unfold Wallet.send, bind at 1, get_world.
  destruct (frontier (state w)) as [f|]; [|eexists; reflexivity].
  unfold bind at 1, lift.
  destruct (Hcb privateKey (Block.mkBlockData (Some f) (config_representative w)
              (balance (state w) - amount) (Some to) None) Hneg) as [e He].
  rewrite He. eauto.
Qed.

(** [getWork] consults the work server only for its own hash and
    threshold. *)
Lemma getWork_ext g1 g2 h t (w : World) :
  g1 h t = g2 h t ->
  Wallet.getWork precomputeWork BlockRepr validateWork g1 h t w =
  Wallet.getWork precomputeWork BlockRepr validateWork g2 h t w.
Proof. intros Hg. unfold Wallet.getWork, Wallet.workGenerate, rpc. rewrite Hg. reflexivity. Qed.

(** On a cache miss, a failed [work_generate] request is [getWork]'s
    failure, after that request only. *)
Lemma getWork_miss_err h t e (w : World) :
  cached_work (work (state w)) h t = None ->
  rpc_workGenerate h t = Err e ->
  getWork h t w = (Err e, log BlockRepr (EvRpc (ReqWorkGenerate h t)) w).
Proof.
  intros Hc He. unfold Wallet.getWork, bind at 1, get_world. rewrite Hc.
  unfold bind at 1, Wallet.workGenerate, bind at 1, rpc, lift. now rewrite He.
Qed.

(** C5 (amended): the hash [receive] gets work for is the current frontier,
    or the account's public key when there is none (opening block), at
    [RECEIVE_DIFFICULTY]; send, sweep and setRepresentative get work for
    the current frontier at [SEND_DIFFICULTY]; the receive threshold is
    the lower one. For each operation: its outcome depends on the work
    server only through the server's answer for that hash and threshold
    (two servers that agree there give the same result and world), and
    when no work is cached for it and that request fails, the operation
    either fails before any effect or fails with that error, with the
    request as its only effect. *)
Theorem work_hash_per_operation :
  (forall link (w : World),
     (forall g1 g2,
        g1 (if truthy (frontier (state w)) then default publicKey (frontier (state w))
            else publicKey) RECEIVE_DIFFICULTY =
        g2 (if truthy (frontier (state w)) then default publicKey (frontier (state w))
            else publicKey) RECEIVE_DIFFICULTY ->
        Wallet.receive privateKey publicKey precomputeWork BlockRepr createBlock
          validateWork g1 rpc_process link w =
        Wallet.receive privateKey publicKey precomputeWork BlockRepr createBlock
          validateWork g2 rpc_process link w) /\
     (forall e,
        let X := if truthy (frontier (state w)) then default publicKey (frontier (state w))
                 else publicKey in
        cached_work (work (state w)) X RECEIVE_DIFFICULTY = None ->
        rpc_workGenerate X RECEIVE_DIFFICULTY = Err e ->
        (exists e', receive link w = (Err e', w)) \/
        receive link w =
          (Err e, log BlockRepr (EvRpc (ReqWorkGenerate X RECEIVE_DIFFICULTY)) w))) /\
  (forall to amount (w : World),
     (forall g1 g2,
        (forall f, frontier (state w) = Some f -> g1 f SEND_DIFFICULTY = g2 f SEND_DIFFICULTY) ->
        Wallet.send privateKey precomputeWork BlockRepr createBlock validateWork g1
          rpc_process to amount w =
        Wallet.send privateKey precomputeWork BlockRepr createBlock validateWork g2
          rpc_process to amount w) /\
     (forall f e, frontier (state w) = Some f ->
        cached_work (work (state w)) f SEND_DIFFICULTY = None ->
        rpc_workGenerate f SEND_DIFFICULTY = Err e ->
        (exists e', send to amount w = (Err e', w)) \/
        send to amount w =
          (Err e, log BlockRepr (EvRpc (ReqWorkGenerate f SEND_DIFFICULTY)) w))) /\
  (forall to (w : World),
     (forall g1 g2,
        (forall f, frontier (state w) = Some f -> g1 f SEND_DIFFICULTY = g2 f SEND_DIFFICULTY) ->
        Wallet.sweep privateKey precomputeWork BlockRepr createBlock validateWork g1
          rpc_process to w =
        Wallet.sweep privateKey precomputeWork BlockRepr createBlock validateWork g2
          rpc_process to w) /\
     (forall f e, frontier (state w) = Some f ->
        cached_work (work (state w)) f SEND_DIFFICULTY = None ->
        rpc_workGenerate f SEND_DIFFICULTY = Err e ->
        (exists e', sweep to w = (Err e', w)) \/
        sweep to w =
          (Err e, log BlockRepr (EvRpc (ReqWorkGenerate f SEND_DIFFICULTY)) w))) /\
  (forall acct (w : World),
     (forall g1 g2,
        (forall f, frontier (state w) = Some f -> g1 f SEND_DIFFICULTY = g2 f SEND_DIFFICULTY) ->
        Wallet.setRepresentative privateKey precomputeWork BlockRepr createBlock
          validateWork g1 rpc_process acct w =
        Wallet.setRepresentative privateKey precomputeWork BlockRepr createBlock
          validateWork g2 rpc_process acct w) /\
     (forall f e, frontier (state w) = Some f ->
        cached_work (work (state w)) f SEND_DIFFICULTY = None ->
        rpc_workGenerate f SEND_DIFFICULTY = Err e ->
        (exists e', setRepresentative acct w = (Err e', w)) \/
        setRepresentative acct w =
          (Err e, log BlockRepr (EvRpc (ReqWorkGenerate f SEND_DIFFICULTY)) w))) /\
  (JsNumber.hex_value RECEIVE_DIFFICULTY < JsNumber.hex_value SEND_DIFFICULTY)%Z /\
  JsNumber.ge (JsNumber.parseInt16 RECEIVE_DIFFICULTY)
              (JsNumber.parseInt16 SEND_DIFFICULTY) = false.
Proof.
  split; [|split; [|split; [|split; [|split]]]].
  - intros link w. split.
    + intros g1 g2 Hg. cbv beta iota zeta delta [Wallet.receive bind get_world lift].
      destruct (find_receivable _ _) as [rb|]; [|reflexivity].
      destruct (createBlock _ _) as [[blk h]|e]; [|reflexivity].
      rewrite (getWork_ext g1 g2 _ _ _ Hg). reflexivity.
    + intros e X Hc He. subst X. cbv beta iota zeta delta [Wallet.receive bind get_world lift].
      destruct (find_receivable _ _) as [rb|]; [|left; eexists; reflexivity].
      destruct (createBlock _ _) as [[blk h]|e']; [|left; eexists; reflexivity].
      right. rewrite (getWork_miss_err _ _ _ _ Hc He). reflexivity.
  - intros to amount w. split.
    + intros g1 g2 Hg. cbv beta iota zeta delta [Wallet.send bind get_world lift].
      destruct (frontier (state w)) as [f|] eqn:Hf; [|reflexivity].
      destruct (createBlock _ _) as [[blk h]|e]; [|reflexivity].
      rewrite (getWork_ext g1 g2 _ _ _ (Hg f eq_refl)). reflexivity.
    + intros f e Hf Hc He. cbv beta iota zeta delta [Wallet.send bind get_world lift].
      rewrite Hf. destruct (createBlock _ _) as [[blk h]|e']; [|left; eexists; reflexivity].
      right. rewrite (getWork_miss_err _ _ _ _ Hc He). reflexivity.
  - intros to w. split.
    + intros g1 g2 Hg. cbv beta iota zeta delta [Wallet.sweep bind get_world lift].
      destruct (frontier (state w)) as [f|] eqn:Hf; [|reflexivity].
      destruct (createBlock _ _) as [[blk h]|e]; [|reflexivity].
      rewrite (getWork_ext g1 g2 _ _ _ (Hg f eq_refl)). reflexivity.
    + intros f e Hf Hc He. cbv beta iota zeta delta [Wallet.sweep bind get_world lift].
      rewrite Hf. destruct (createBlock _ _) as [[blk h]|e']; [|left; eexists; reflexivity].
      right. rewrite (getWork_miss_err _ _ _ _ Hc He). reflexivity.
  - intros acct w. split.
    + intros g1 g2 Hg.
      cbv beta iota zeta delta [Wallet.setRepresentative bind get_world lift].
      destruct (frontier (state w)) as [f|] eqn:Hf; [|reflexivity].
      destruct (createBlock _ _) as [[blk h]|e]; [|reflexivity].
      rewrite (getWork_ext g1 g2 _ _ _ (Hg f eq_refl)). reflexivity.
    + intros f e Hf Hc He.
      cbv beta iota zeta delta [Wallet.setRepresentative bind get_world lift].
      rewrite Hf. destruct (createBlock _ _) as [[blk h]|e']; [|left; eexists; reflexivity].
      right. rewrite (getWork_miss_err _ _ _ _ Hc He). reflexivity.
  - vm_compute. reflexivity.
  - vm_compute. reflexivity.
Qed.

(** C6: [getWork] compares thresholds with [parseInt(_, 16)], a double:
    a cached threshold one below the requested one (a 64-bit value that
    rounds to it) is taken as sufficient, and the cached solution is
    returned with no request. *)
Theorem getWork_reuses_cache_below_threshold :
  let c := Work.mkWork "H" "fffffff7ffffffff" "W0" in
  let w : World := mkWorld (mkState 0 0 [] (Some "H") None (Some c)) (Some "H") "R" [] in
  (JsNumber.hex_value (Work.threshold c) + 1 = JsNumber.hex_value SEND_DIFFICULTY)%Z /\
  getWork "H" SEND_DIFFICULTY w = (Ok "W0", w).
Proof. split; vm_compute; reflexivity. Qed.

Lemma process_checked_world blk wk h (w : World) :
  snd (process_checked blk wk h w) = log BlockRepr (EvRpc (ReqProcess blk wk)) w.
Proof.
  unfold Wallet.process_checked, bind, rpc, lift.
  destruct (rpc_process blk wk) as [p|e]; [|reflexivity].
  simpl. destruct (opt_eqb p (Some h)); reflexivity.
Qed.

Lemma find_receivable_some link l b :
  find_receivable link l = Some b -> In b l /\ blockHash b = link.
Proof.
  unfold find_receivable. intros H. split; [eapply find_some; eauto|].
  apply find_some in H as [_ H]. now apply String.eqb_eq.
Qed.

Lemma find_receivable_none link l :
  (forall b, In b l -> blockHash b <> link) -> find_receivable link l = None.
Proof.
  unfold find_receivable. induction l as [|b l IH]; intros Hn; [reflexivity|].
  simpl. destruct (String.eqb (blockHash b) link) eqn:E.
  - apply String.eqb_eq in E. exfalso. apply (Hn b); [now left|exact E].
  - apply IH. intros b' Hb'. apply Hn. now right.
Qed.

Lemma receivableBlocks_of_view s s' :
  chain_view s' = chain_view s -> receivableBlocks s' = receivableBlocks s.
Proof. unfold chain_view. intros H. now inversion H. Qed.

(** C7 (amended): an ['Account not found'] answer to [account_info] is
    swallowed: [sync] resolves, and the store is left as it was (nothing
    is reset, only the request is on the log); any other [account_info]
    error is raised as it is; when [account_info] succeeds and [receivable]
    fails, that error is raised as it is too, unless its message is
    ['Account not found']; and every error [sync] raises is one of the
    node's answers (to [account_info] or [receivable]) whose message is not
    ['Account not found']. *)
Theorem sync_account_not_found_swallowed (w : World) :
  (forall e, rpc_accountInfo account = Err e ->
     err_message e = "Account not found" ->
     sync w = (Ok tt, log BlockRepr (EvRpc (ReqAccountInfo account)) w)) /\
  (forall e, rpc_accountInfo account = Err e ->
     err_message e <> "Account not found" ->
     sync w = (Err e, log BlockRepr (EvRpc (ReqAccountInfo account)) w)) /\
  (forall info e, rpc_accountInfo account = Ok info ->
     rpc_receivable account minAmountRaw = Err e ->
     fst (sync w) =
       if String.eqb (err_message e) "Account not found" then Ok tt else Err e) /\
  (forall e w', sync w = (Err e, w') ->
     err_message e <> "Account not found" /\
     (rpc_accountInfo account = Err e \/
      rpc_receivable account minAmountRaw = Err e)).
Proof.
  split; [|split; [|split]].
  - intros e He Hm. unfold Wallet.sync, Wallet.sync_try, bind at 1, rpc, lift.
    rewrite He. simpl. now rewrite Hm.
  - intros e He Hm. unfold Wallet.sync, Wallet.sync_try, bind at 1, rpc, lift.
    rewrite He. simpl.
    destruct (String.eqb (err_message e) "Account not found") eqn:E; [|reflexivity].
    apply String.eqb_eq in E. contradiction.
  - intros info e Hai Hr. unfold Wallet.sync, Wallet.sync_try, bind at 1, rpc at 1, lift at 1.
    rewrite Hai. cbn beta iota. unfold bind at 1.
    destruct (update_effect BlockRepr precomputeWork
               (mkPartial (Some (ai_balance info)) (Some (ai_receivable info))
                  None (Some (Some (ai_frontier info)))
                  (Some (Some (ai_representative info))) None)
               (log BlockRepr (EvRpc (ReqAccountInfo account)) w))
      as [w1 [-> _]].
    unfold bind at 1, Wallet.getReceivable, bind at 1, rpc, lift.
    rewrite Hr. cbn beta iota.
    now destruct (String.eqb (err_message e) "Account not found").
  - intros e w'. unfold Wallet.sync, Wallet.sync_try, bind at 1, rpc at 1, lift at 1.
    destruct (rpc_accountInfo account) as [info|e0] eqn:Hai.
    + cbn beta iota. unfold bind at 1.
      destruct (update_effect BlockRepr precomputeWork
                 (mkPartial (Some (ai_balance info)) (Some (ai_receivable info))
                    None (Some (Some (ai_frontier info)))
                    (Some (Some (ai_representative info))) None)
                 (log BlockRepr (EvRpc (ReqAccountInfo account)) w))
        as [w1 [-> _]].
      unfold bind at 1, Wallet.getReceivable, bind at 1, rpc, lift.
      destruct (rpc_receivable account minAmountRaw) as [r|e1] eqn:Hr.
      * cbn beta iota. unfold bind at 1. unfold update at 1. cbn beta iota zeta.
        unfold bind, ret. cbn beta iota. discriminate.
      * cbn beta iota.
        destruct (String.eqb (err_message e1) "Account not found") eqn:E;
          [discriminate|].
        intros H. inversion H; subst. split; [|now right].
        intros Hm. rewrite Hm in E. discriminate.
    + cbn beta iota.
      destruct (String.eqb (err_message e0) "Account not found") eqn:E;
        [discriminate|].
      intros H. inversion H; subst. split; [|now left].
      intros Hm. rewrite Hm in E. discriminate.
Qed.

(** C10: [receive] upper-cases its argument before the lookup: receiving
    [link] and [link.toUpperCase()] are the same run; a block is found
    only under its own hash, which equals the upper-cased link, so a block
    whose hash is not upper case is never found; a listed block is found
    from any casing of its upper-case hash; with no match the call fails
    at once; and a successful call removes exactly the blocks whose hash
    is the upper-cased link. *)
Theorem receive_upper_case_lookup :
  (forall link (w : World), receive link w = receive (toUpperCase link) w) /\
  (forall link l b, find_receivable (toUpperCase link) l = Some b ->
     In b l /\ blockHash b = toUpperCase link /\
     toUpperCase (blockHash b) = blockHash b) /\
  (forall link l b, In b l -> blockHash b = toUpperCase link ->
     exists b', find_receivable (toUpperCase link) l = Some b' /\
                blockHash b' = blockHash b) /\
  (forall link (w : World),
     (forall b, In b (receivableBlocks (state w)) -> blockHash b <> toUpperCase link) ->
     receive link w = (Err (newError "No receivable block"), w)) /\
  (forall link (w : World) h w', receive link w = (Ok h, w') ->
     receivableBlocks (state w') =
       filter (fun b => negb (String.eqb (blockHash b) (toUpperCase link)))
              (receivableBlocks (state w))).
Proof.
  split; [|split; [|split; [|split]]].
  - intros link w. unfold Wallet.receive. now rewrite toUpperCase_idem.
  - intros link l b Hf. apply find_receivable_some in Hf as [Hin Hb].
    split; [exact Hin|]. split; [exact Hb|]. rewrite Hb. apply toUpperCase_idem.
  - intros link l b Hin Hb. unfold find_receivable.
    destruct (find (fun b => String.eqb (blockHash b) (toUpperCase link)) l)
      as [b'|] eqn:Hf.
    + exists b'. split; [reflexivity|].
      apply find_some in Hf as [_ Hf]. apply String.eqb_eq in Hf. congruence.
    + exfalso. eapply find_none in Hf; [|exact Hin].
      simpl in Hf. rewrite Hb, String.eqb_refl in Hf. discriminate.
  - intros link w Hn. unfold Wallet.receive, bind at 1, get_world.
    cbv beta iota zeta. rewrite (find_receivable_none _ _ Hn). reflexivity.
  - intros link w h w'.
    cbv beta iota zeta delta [Wallet.receive bind get_world lift throw].
    destruct (find_receivable _ _) as [rb|]; [|intros H; discriminate H].
    destruct (createBlock _ _) as [[blk hash]|e]; [|intros H; discriminate H].
    pose proof (getWork_quiet
                  (if truthy (frontier (state w))
                   then default publicKey (frontier (state w)) else publicKey)
                  RECEIVE_DIFFICULTY w) as [[Q1 _] _].
    destruct (getWork _ _ w) as [[wk|e] w1]; [|intros H; discriminate H]. simpl in Q1.
    pose proof (process_checked_world blk wk hash w1) as Hpw.
    destruct (process_checked blk wk hash w1) as [[[]|e] w2];
      [|intros H; discriminate H].
    simpl in Hpw. subst w2.
    match goal with
    | |- context [update precomputeWork BlockRepr ?p ?w0] =>
        destruct (update_effect BlockRepr precomputeWork p w0) as [w3 [-> [Hv _]]]
    end.
    unfold ret. intros H. inversion H; subst w'.
    rewrite (receivableBlocks_of_view _ _ Hv). simpl.
    rewrite (receivableBlocks_of_view _ _ Q1). reflexivity.
Qed.
End Ops.

End WalletProps.

(* ------------------------------------------------------------------ *)
(** ** Runs of the sample wallet *)

Module SampleRuns.
Import Rpc.
Import Wallet.

(** C1 (counterexample): a [send] whose submission the node answers with
    another hash fails with ['Block hash mismatch'], but the store was
    already updated before the hashes were compared: [getWork] cached the
    work it generated, before the submission. *)
Lemma send_mismatch_updates_store_before_check :
  let r := send "priv" true Block.BlockData Sample.createBlock Sample.validateWork
             Sample.workGenerate Sample.process_substituting "to" 1 Sample.w0 in
  fst r = Err (newError "Block hash mismatch") /\
  work (state Sample.w0) = None /\
  work (state (snd r)) = Some (Work.mkWork "F" SEND_DIFFICULTY "W") /\
  trace (snd r) =
    [EvRpc (ReqWorkGenerate "F" SEND_DIFFICULTY);
     EvUpdate (only_work (Some (Work.mkWork "F" SEND_DIFFICULTY "W")));
     EvRpc (ReqProcess (Block.mkBlockData (Some "F") "R" 4 (Some "to") None) "W")].
Proof. vm_compute. repeat split. Qed.

(** C1 (witness of the amended statement): the sample node that answers
    ["H2"] substitutes the hash of every block, and the four operations on
    the sample wallet end as the statement says. *)
Lemma chain_ops_hash_mismatch_commit_nothing_witness :
  node_substitutes_hash Block.BlockData Sample.createBlock Sample.process_substituting /\
  (mismatch_outcome Block.BlockData Sample.w0
     (send "priv" true Block.BlockData Sample.createBlock Sample.validateWork
        Sample.workGenerate Sample.process_substituting "to" 1 Sample.w0) /\
   mismatch_outcome Block.BlockData Sample.w0
     (sweep "priv" true Block.BlockData Sample.createBlock Sample.validateWork
        Sample.workGenerate Sample.process_substituting "to" Sample.w0) /\
   mismatch_outcome Block.BlockData Sample.w0
     (setRepresentative "priv" true Block.BlockData Sample.createBlock
        Sample.validateWork Sample.workGenerate Sample.process_substituting
        (Some "NEWREP") Sample.w0) /\
   mismatch_outcome Block.BlockData Sample.w0
     (receive "priv" "PUB" true Block.BlockData Sample.createBlock
        Sample.validateWork Sample.workGenerate Sample.process_substituting
        "l1" Sample.w0)).
Proof.
  assert (Hmis : node_substitutes_hash Block.BlockData Sample.createBlock
                   Sample.process_substituting).
  { intros pk d blk h wk Hc. unfold Sample.createBlock in Hc.
    destruct (Block.balance d <? 0)%Z; inversion Hc.
    exists (Some "H2"). split; [reflexivity|]. intros E. inversion E. }
  split; [exact Hmis|].
  apply WalletProps.chain_ops_hash_mismatch_commit_nothing. exact Hmis.
Defined.

(** C3 (witness): the sample [createBlock] refuses negative balances, and
    sending 7 from a balance of 5 fails with the world unchanged. *)
Lemma send_negative_balance_fails_fast_witness :
  (forall pk d, (Block.balance d < 0)%Z -> exists e, Sample.createBlock pk d = Err e) /\
  (balance (state Sample.w0) - 7 < 0)%Z /\
  exists e, send "priv" true Block.BlockData Sample.createBlock Sample.validateWork
              Sample.workGenerate Sample.process_honest "to" 7 Sample.w0
            = (Err e, Sample.w0).
Proof.
  assert (Hcb : forall pk d, (Block.balance d < 0)%Z ->
                  exists e, Sample.createBlock pk d = Err e).
  { intros pk d Hd. unfold Sample.createBlock.
    apply Z.ltb_lt in Hd. rewrite Hd. eexists. reflexivity. }
  split; [exact Hcb|]. split; [vm_compute; reflexivity|].
  apply WalletProps.send_negative_balance_fails_fast; [exact Hcb|vm_compute; reflexivity].
Defined.

(** C4: [setRepresentative] builds its block with the current balance but
    commits [balance: '0']: from a balance of 5, a successful change of
    representative leaves the stored balance at 0. *)
Theorem setRepresentative_zeroes_balance :
  let r := setRepresentative "priv" true Block.BlockData Sample.createBlock
             Sample.validateWork Sample.workGenerate Sample.process_honest
             (Some "NEWREP") Sample.w0 in
  fst r = Ok "H1" /\
  balance (state Sample.w0) = 5%Z /\
  In (EvRpc (ReqProcess (Block.mkBlockData (Some "F") "NEWREP" 5 None None) "W"))
     (trace (snd r)) /\
  balance (state (snd r)) = 0%Z /\
  representative (state (snd r)) = Some "NEWREP".
Proof. vm_compute. split; [reflexivity|]. split; [reflexivity|]. split; [|split; reflexivity].
  right. right. left. reflexivity. Qed.

(** C5 (counterexample): receiving the block ["L1"] on an opened account
    with frontier ["F"] gets work for ["F"], not for the link ["L1"]: the
    only [work_generate] requests are the one for ["F"] at the receive
    difficulty and the precomputation for the new frontier. *)
Lemma receive_works_on_frontier_not_link :
  let r := receive "priv" "PUB" true Block.BlockData Sample.createBlock
             Sample.validateWork Sample.workGenerate Sample.process_honest
             "l1" Sample.w0 in
  fst r = Ok "H1" /\
  frontier (state Sample.w0) = Some "F" /\
  In (EvRpc (ReqProcess (Block.mkBlockData (Some "F") "R" 8 (Some "L1") None) "W"))
     (trace (snd r)) /\
  Sample.work_requests (trace (snd r)) =
    [("F", RECEIVE_DIFFICULTY); ("H1", SEND_DIFFICULTY)].
Proof. vm_compute. split; [reflexivity|]. split; [reflexivity|]. split; [|reflexivity].
  right. right. left. reflexivity. Qed.

(** C7 (counterexample): on an account whose store holds frontier ["F"] and
    balance 5, a [sync] the node answers with ['Account not found']
    resolves and leaves frontier and balance as they were. *)
Lemma sync_not_found_keeps_state :
  let r := sync "acct" true 0 Block.BlockData Sample.accountInfo_not_found
             Sample.receivable_none Sample.w0 in
  fst r = Ok tt /\
  frontier (state (snd r)) = Some "F" /\
  balance (state (snd r)) = 5%Z /\
  frontier defaultState = None.
Proof. vm_compute. repeat split. Qed.

End SampleRuns.

(* ================================================================== *)
(** * Further properties of the code *)

(* ------------------------------------------------------------------ *)
(** ** The RPC client *)
Module RpcExtras.
Import Rpc RpcProps.

(** Only a rejected fetch can give a retryable error: the errors [attempt]
    makes itself are plain [Error]s. *)
Lemma attempt_retryable o e :
  attempt o = Err e -> isRetryableError e = true -> o = FetchRejects e.
Proof.
  destruct o as [e'|ok json]; simpl.
  - now intros [= ->].
  - destruct ok; simpl; [destruct json as [[m|v]|]|]; intros H; inversion H; subst;
      discriminate.
Qed.

Lemma attempt_response_not_retryable ok json e :
  attempt (FetchResponse ok json) = Err e -> isRetryableError e = false.
Proof.
  intros Ha. destruct (isRetryableError e) eqn:Hr; [|reflexivity].
  pose proof (attempt_retryable _ _ Ha Hr). discriminate.
Qed.

Lemma postRPC_go_shape net urls fuel : forall retry,
  exists pre u, snd (postRPC_go net urls fuel retry) = (pre ++ [u])%list /\
    fst (postRPC_go net urls fuel retry) = attempt (net u) /\
    forall u', In u' pre ->
      exists e, net u' = FetchRejects e /\ isRetryableError e = true.
Proof.
  induction fuel as [|fuel IH]; intros retry; rewrite postRPC_go_eq;
    destruct (attempt (net (nth_error urls retry))) as [v|e] eqn:Ha;
    try (exists [], (nth_error urls retry); cbn [fst snd app];
         split; [reflexivity|]; split; [now rewrite Ha|]; intros _ []).
  - destruct (_ && _)%bool;
      exists [], (nth_error urls retry); cbn [fst snd app];
      (split; [reflexivity|]; split; [now rewrite Ha|]; intros _ []).
  - destruct (isRetryableError e && _)%bool eqn:Hc.
    + apply andb_true_iff in Hc as [Hr _].
      destruct (IH (S retry)) as [pre [u [H1 [H2 H3]]]].
      destruct (postRPC_go net urls fuel (S retry)) as [r tried].
      cbn [fst snd] in H1, H2 |- *.
      exists (nth_error urls retry :: pre), u. rewrite H1.
      split; [reflexivity|]. split; [exact H2|].
      intros u' [<-|Hin]; [|auto].
      exists e. split; [|exact Hr]. now apply attempt_retryable.
    + exists [], (nth_error urls retry); cbn [fst snd app].
      split; [reflexivity|]. split; [now rewrite Ha|]. intros _ [].
Qed.

(** [postRPC] returns or raises exactly the outcome of the last endpoint it
    fetched; every endpoint it fetched before that one rejected with a
    retryable [DOMException]. *)
Theorem postRPC_last_attempt_decides net urls :
  exists pre u, snd (postRPC net urls) = (pre ++ [u])%list /\
    fst (postRPC net urls) = attempt (net u) /\
    forall u', In u' pre ->
      exists e, net u' = FetchRejects e /\ err_is_dom e = true /\
                isRetryableError e = true.
Proof.
  destruct (postRPC_go_shape net urls (length urls) 0) as [pre [u [H1 [H2 H3]]]].
  exists pre, u. split; [exact H1|]. split; [exact H2|].
  intros u' Hin. destruct (H3 u' Hin) as [e [He Hr]]. exists e.
  split; [exact He|]. split; [|exact Hr].
  unfold isRetryableError in Hr. now apply andb_true_iff in Hr as [Hd _].
Qed.

(** With no endpoint at all, [postRPC] fetches [urls[0]], that is
    [undefined], once, and returns or raises that outcome. *)
Theorem postRPC_empty_urls net :
  postRPC net [] = (attempt (net None), [None]).
Proof.
  unfold postRPC. simpl. destruct (attempt (net None)) as [v|e]; [reflexivity|].
  destruct (isRetryableError e); reflexivity.
Qed.

(** A response from the first endpoint that fails [attempt] (a non-ok
    status, an unparsable body, an [error] field) is raised after that one
    attempt, whatever endpoints follow; the first two are raised as
    ['bad status in response'] and ['bad json in response']. *)
Theorem postRPC_response_error_not_retried net urls u ok json e :
  nth_error urls 0 = Some u ->
  net (Some u) = FetchResponse ok json ->
  attempt (FetchResponse ok json) = Err e ->
  postRPC net urls = (Err e, [Some u]) /\
  (ok = false -> e = newError "bad status in response") /\
  (ok = true -> json = None -> e = newError "bad json in response").
Proof.
  intros Hu Hn Ha. split; [|split].
  - unfold postRPC. rewrite postRPC_go_no_retry with (e := e).
    + now rewrite Hu.
    + now rewrite Hu, Hn.
    + eapply attempt_response_not_retryable; eauto.
  - intros ->. simpl in Ha. now inversion Ha.
  - intros -> ->. simpl in Ha. now inversion Ha.
Qed.

Lemma in_firstn {A} (x : A) n l : In x (firstn n l) -> In x l.
Proof.
  intros H. rewrite <- (firstn_skipn n l). apply in_or_app. now left.
Qed.

Lemma postRPC_tried_in net urls u :
  In (Some u) (snd (postRPC net urls)) -> In u urls.
Proof.
  destruct urls as [|u0 urls0].
  - rewrite postRPC_empty_urls. intros [H|[]]. discriminate.
  - unfold postRPC.
    destruct (postRPC_go_tried net (u0 :: urls0) (length (u0 :: urls0)) 0)
      as [k [_ [_ Hk]]]; [simpl; lia|].
    rewrite Hk. simpl skipn. intros Hin. apply in_map_iff in Hin as [x [[= ->] Hx]].
    eapply in_firstn; eauto.
Qed.

(** [workGenerate] only contacts the work servers, and [process],
    [accountInfo], [accountBalance] and [receivable] only the RPC nodes. *)
Theorem rpc_methods_endpoints {B : Type}
    (net : rpc_data B -> option string -> fetch_outcome) (c : NanoRPC) :
  (forall h d u, In (Some u) (snd (workGenerate B net c h d)) -> In u (workerUrls c)) /\
  (forall blk u, In (Some u) (snd (process B net c blk)) -> In u (rpcUrls c)) /\
  (forall a u, In (Some u) (snd (accountInfo B net c a)) -> In u (rpcUrls c)) /\
  (forall a u, In (Some u) (snd (accountBalance B net c a)) -> In u (rpcUrls c)) /\
  (forall a n t u, In (Some u) (snd (receivable B net c a n t)) -> In u (rpcUrls c)).
Proof. repeat split; intros; eapply postRPC_tried_in; eauto. Qed.

End RpcExtras.

(* ------------------------------------------------------------------ *)
(** ** Subscriptions of the store *)
Module StoreExtras.
Import Store.

(** [findIndex] finds the first element satisfying [p], and [splice] at
    that index removes exactly that element. *)
Lemma findIndex_first {A} (p : A -> bool) (l : list A) :
  (findIndex p l = (-1)%Z /\ existsb p l = false) \/
  exists (pre : list A) x post, l = (pre ++ x :: post)%list /\ existsb p pre = false /\ p x = true /\
    findIndex p l = Z.of_nat (length pre) /\ splice1 l (length pre) = (pre ++ post)%list.
Proof.
  induction l as [|y l IH]; [now left|]. simpl.
  destruct (p y) eqn:Hy.
  - right. exists [], y, l. repeat split; assumption || reflexivity.
  - destruct IH as [[H1 H2]|[pre [x [post [Hl [Hpre [Hx [Hi Hs]]]]]]]].
    + left. rewrite H1, H2. split; reflexivity.
    + right. exists (y :: pre), x, post. simpl. rewrite Hy, Hpre, Hi, Hs, Hl.
      destruct (Z.eqb_spec (Z.of_nat (length pre)) (-1)); [lia|].
      repeat split; try reflexivity; try assumption; lia.
Qed.

Section Subscriptions.
Context {V : Type}.
Variable same : @Listener V -> @Listener V -> bool.

(** [unsubscribe(listener)] leaves the state alone. When no registered
    listener is [listener], it reports [false] and changes nothing;
    otherwise it reports [true] and removes exactly the first registration
    of [listener]: the listeners before it and after it stay, in order. *)
Theorem unsubscribe_removes_first (c : BaseController (V:=V)) l :
  let '(c', found) := unsubscribe same c l in
  internalState c' = internalState c /\
  ((found = false /\ existsb (same l) (internalListeners c) = false /\ c' = c) \/
   (found = true /\
    exists pre x post, internalListeners c = (pre ++ x :: post)%list /\
      existsb (same l) pre = false /\ same l x = true /\
      internalListeners c' = (pre ++ post)%list)).
Proof.
  unfold unsubscribe.
  change (findIndex (fun cb => same l cb)) with (findIndex (same l)).
  destruct (findIndex_first (same l) (internalListeners c))
    as [[H1 H2]|[pre [x [post [Hl [Hpre [Hx [Hi Hs]]]]]]]].
  - rewrite H1. simpl. split; [reflexivity|]. left. auto.
  - rewrite Hi. destruct (Z.gtb_spec (Z.of_nat (length pre)) (-1)); [|lia].
    simpl. split; [reflexivity|]. right. split; [reflexivity|].
    exists pre, x, post. rewrite Nat2Z.id, Hs. auto.
Qed.

Lemma findIndex_app_last (p : @Listener V -> bool) ls x :
  existsb p ls = false -> p x = true ->
  findIndex p (ls ++ [x]) = Z.of_nat (length ls).
Proof.
  intros Hn Hx. induction ls as [|y ls IH]; simpl in *; [now rewrite Hx|].
  apply orb_false_iff in Hn as [Hy Hn]. rewrite Hy, IH by exact Hn.
  destruct (Z.eqb_spec (Z.of_nat (length ls)) (-1)); lia.
Qed.

Lemma splice1_app_last {A} (ls : list A) x : splice1 (ls ++ [x]) (length ls) = ls.
Proof. induction ls as [|y ls IH]; simpl; [reflexivity|now rewrite IH]. Qed.

(** Subscribing a listener that is not subscribed and unsubscribing it
    again gives back the controller as it was, and reports it found. *)
Theorem subscribe_unsubscribe_roundtrip (Hrefl : forall l, same l l = true)
    (c : BaseController (V:=V)) l :
  existsb (same l) (internalListeners c) = false ->
  unsubscribe same (subscribe c l) l = (c, true).
Proof.
  intros Hn. destruct c as [st ls]. unfold unsubscribe, subscribe. simpl in *.
  rewrite (findIndex_app_last (fun cb => same l cb) ls l Hn (Hrefl l)).
  destruct (Z.gtb_spec (Z.of_nat (length ls)) (-1)); [|lia].
  rewrite Nat2Z.id, splice1_app_last. reflexivity.
Qed.
End Subscriptions.

(** [reset()] replaces the whole state by [defaultState]: no key of the
    old snapshot survives, and the result does not depend on the old
    snapshot at all. The listeners stay subscribed and each is called with
    [defaultState]. *)
Theorem reset_discards_state {V : Type} (d : gmap string V) (c : BaseController (V:=V)) :
  let '(c', calls) := reset d c in
  internalState c' = d /\ internalListeners c' = internalListeners c /\
  calls = map (fun _ => d) (internalListeners c) /\
  (forall s, reset d (mkController s (internalListeners c)) = (c', calls)).
Proof.
  assert (Hd : object_assign ∅ d = d) by apply map_union_empty.
  unfold reset, update. cbn iota. rewrite Hd. unfold notify. simpl.
  repeat split.
Qed.

End StoreExtras.

(* ------------------------------------------------------------------ *)
(** ** The wallet operations *)
Module WalletExtras.
Import Rpc.
Import Wallet.
Import WalletProps.

Lemma trace_prefix_in {B} (t t' added : list (event B)) ev :
  t' = (t ++ added)%list -> In ev t -> In ev t'.
Proof. intros -> H. apply in_or_app. now left. Qed.

(** The sum [getReceivable] computes, as a sum over the blocks it stores. *)
Lemma fold_receivable (blocks : list (string * Z)) acc :
  fold_left (fun acc '(_, a) => (acc + a)%Z) blocks acc =
  (acc + fold_right Z.add 0
           (map amount (map (fun '(h, a) => mkReceivableBlock h a) blocks)))%Z.
Proof.
  revert acc. induction blocks as [|[h a] blocks IH]; intros acc; simpl; [lia|].
  rewrite IH. lia.
Qed.

Section Props.
Variable BlockRepr : Type.

Lemma precompute_start_state h (w : World BlockRepr) :
  state (precompute_start BlockRepr h w) = state w.
Proof. unfold precompute_start. now destruct (cached_work _ _ _). Qed.

Lemma precompute_check_state s (w : World BlockRepr) :
  state (precompute_check BlockRepr s w) = state w.
Proof.
  unfold precompute_check. destruct (frontier s) as [f|]; [|reflexivity].
  destruct (_ && _)%bool; simpl; [apply precompute_start_state|reflexivity].
Qed.

Lemma listener_state s (w : World BlockRepr) :
  state (listener BlockRepr s w) =
  match work s with
  | Some c => if opt_eqb (Some (Work.hash c)) (frontier s) then state w
              else merge (state w) (only_work None)
  | None => state w
  end.
Proof.
  unfold listener. rewrite precompute_check_state.
  destruct (work s) as [c|]; [|reflexivity].
  destruct (opt_eqb _ _); [reflexivity|]. now rewrite precompute_check_state.
Qed.

(** With [precomputeWork], an update that moves the frontier to a new
    non-empty hash [f] for which no work is cached makes the listener drop
    any stale cached work and request work for [f] at [SEND_DIFFICULTY],
    once; the listener then remembers [f] as the previous frontier. *)
Theorem update_precomputes_new_frontier p (w : World BlockRepr) f :
  frontier (merge (state w) p) = Some f -> f <> "" ->
  previousFrontier w <> Some f ->
  match work (merge (state w) p) with Some c => Work.hash c <> f | None => True end ->
  exists w', update true BlockRepr p w = (Ok tt, w') /\
    trace w' =
      (trace w ++ EvUpdate p ::
         match work (merge (state w) p) with
         | Some _ => [EvUpdate (only_work None)]
         | None => []
         end ++ [EvRpc (ReqWorkGenerate f SEND_DIFFICULTY)])%list /\
    work (state w') = None /\
    previousFrontier w' = Some f.
Proof.
  intros Hf Hne Hprev Hw. unfold update. eexists. split; [reflexivity|].
  assert (Ht : truthy (Some f) = true).
  { simpl. destruct (String.eqb_spec f ""); [contradiction|reflexivity]. }
  assert (Hp : opt_eqb (Some f) (previousFrontier w) = false).
  { destruct (opt_eqb (Some f) (previousFrontier w)) eqn:E; [|reflexivity].
    apply opt_eqb_true in E. congruence. }
  unfold listener, commit. cbn [state previousFrontier config_representative trace].
  set (s := merge (state w) p) in *. clearbody s.
  assert (He : String.eqb f "" = false) by (apply String.eqb_neq; exact Hne).
  unfold precompute_check, precompute_start.
  assert (Hpf : forall pf, previousFrontier w = Some pf -> String.eqb f pf = false)
    by (intros pf Epf; apply String.eqb_neq; congruence).
  destruct (previousFrontier w) as [pf|] eqn:Epf;
    [specialize (Hpf pf eq_refl)|clear Hpf];
  (destruct (work s) as [c|] eqn:Ewk;
   [assert (Hc : String.eqb (Work.hash c) f = false)
      by (apply String.eqb_neq; exact Hw)|]);
  repeat progress (cbn; rewrite ?Hf, ?Ewk, ?He, ?Hc, ?Hpf, ?String.eqb_refl);
  (repeat split; rewrite <- !app_assoc; reflexivity).
Qed.
End Props.

Section Ops.
Variables (privateKey publicKey account : string) (precomputeWork : bool).
Variable minAmountRaw : Z.
Variable BlockRepr : Type.
Variable createBlock : string -> Block.BlockData -> result js_error (BlockRepr * string).
Variable validateWork : string -> string -> string -> bool.
Variable rpc_accountInfo : string -> result js_error AccountInfo.
Variable rpc_receivable : string -> Z -> result js_error (option (list (string * Z))).
Variable rpc_workGenerate : string -> string -> result js_error (option string).
Variable rpc_process : BlockRepr -> string -> result js_error (option string).

Local Abbreviation World := (World BlockRepr).
Local Abbreviation getWork :=
  (Wallet.getWork precomputeWork BlockRepr validateWork rpc_workGenerate).
Local Abbreviation workGenerate :=
  (Wallet.workGenerate BlockRepr validateWork rpc_workGenerate).
Local Abbreviation process_checked := (Wallet.process_checked BlockRepr rpc_process).
Local Abbreviation receive := (Wallet.receive privateKey publicKey precomputeWork
  BlockRepr createBlock validateWork rpc_workGenerate rpc_process).
Local Abbreviation send := (Wallet.send privateKey precomputeWork
  BlockRepr createBlock validateWork rpc_workGenerate rpc_process).
Local Abbreviation sweep := (Wallet.sweep privateKey precomputeWork
  BlockRepr createBlock validateWork rpc_workGenerate rpc_process).
Local Abbreviation setRepresentative := (Wallet.setRepresentative privateKey
  precomputeWork BlockRepr createBlock validateWork rpc_workGenerate rpc_process).
Local Abbreviation getReceivable := (Wallet.getReceivable account precomputeWork
  minAmountRaw BlockRepr rpc_receivable).
Local Abbreviation sync := (Wallet.sync account precomputeWork minAmountRaw
  BlockRepr rpc_accountInfo rpc_receivable).

(** The common success path of the four operations: the work, then a
    submission the node accepts under the local hash. *)
Lemma work_then_submit_ok f t blk h (k : unit -> M BlockRepr string) (w : World) r w' :
  bind BlockRepr (getWork f t)
    (fun work => bind BlockRepr (process_checked blk work h) k) w = (Ok r, w') ->
  exists wk w1, getWork f t w = (Ok wk, w1) /\ work_only_step BlockRepr w w1 /\
    rpc_process blk wk = Ok (Some h) /\
    k tt (log BlockRepr (EvRpc (ReqProcess blk wk)) w1) = (Ok r, w').
Proof.
  unfold bind at 1. pose proof (getWork_quiet precomputeWork BlockRepr validateWork rpc_workGenerate f t w) as [Q _].
  destruct (getWork f t w) as [[wk|e] w1]; [|intros H; discriminate H].
  simpl in Q. unfold bind, Wallet.process_checked, bind, rpc, lift.
  destruct (rpc_process blk wk) as [p|e] eqn:Hp; [|intros H; discriminate H].
  cbn beta iota. destruct (opt_eqb p (Some h)) eqn:E; [|intros H; discriminate H].
  apply opt_eqb_true in E. subst p. intros H.
  exists wk, w1. split; [reflexivity|]. split; [exact Q|]. split; [exact Hp|].
  exact H.
Qed.

(** The last update of an operation, then its [return]. *)
Lemma update_then_return {A} p (h : A) (w : World) r w' :
  bind BlockRepr (update precomputeWork BlockRepr p) (fun _ => ret BlockRepr h) w =
    (Ok r, w') ->
  r = h /\ chain_view (state w') = chain_view (merge (state w) p) /\
  config_representative w' = config_representative w /\
  exists added, trace w' = (trace w ++ added)%list.
Proof.
  destruct (update_effect BlockRepr precomputeWork p w) as [w2 [Hu [Hv [Hc [a [Ht _]]]]]].
  unfold bind. rewrite Hu. unfold ret. intros H. inversion H; subst.
  split; [reflexivity|]. split; [exact Hv|]. split; [exact Hc|]. eauto.
Qed.

(** A successful [send(to, amount)] returns the hash of the block built
    from the frontier with balance [balance - amount], which the node
    accepted under that hash; it commits that balance and the hash as
    frontier, and leaves receivable, receivableBlocks, the state's
    representative and the configured one as they were. *)
Theorem send_success (w : World) to amount h w' :
  send to amount w = (Ok h, w') ->
  exists f blk wk, frontier (state w) = Some f /\
    createBlock privateKey (Block.mkBlockData (Some f) (config_representative w)
      (balance (state w) - amount) (Some to) None) = Ok (blk, h) /\
    rpc_process blk wk = Ok (Some h) /\
    In (EvRpc (ReqProcess blk wk)) (trace w') /\
    chain_view (state w') =
      ((balance (state w) - amount)%Z, receivable (state w), receivableBlocks (state w),
       Some h, representative (state w)) /\
    config_representative w' = config_representative w.
Proof.
  intros H. unfold Wallet.send, bind at 1, get_world in H.
  destruct (frontier (state w)) as [f|] eqn:Hf; [|discriminate H].
  unfold bind at 1, lift in H.
  destruct (createBlock _ _) as [[blk hash]|e] eqn:Hcb; [|discriminate H].
  apply work_then_submit_ok in H as [wk [w1 [_ [Q [Hp H]]]]].
  apply update_then_return in H as [<- [Hv [Hc [a Ht]]]].
  exists f, blk, wk. split; [reflexivity|]. split; [exact Hcb|]. split; [exact Hp|].
  split; [eapply trace_prefix_in; [exact Ht|]; simpl; apply in_or_app; right; now left|].
  destruct Q as [Qv [Qc _]]. rewrite Hv. split; [|simpl in Hc; congruence].
  unfold chain_view in *. simpl in *. injection Qv; intros E1 E2 E3 E4 E5.
  rewrite ?E1, ?E2, ?E3, ?E4, ?E5. reflexivity.
Qed.

(** A successful [sweep(to)] returns the hash of the block built from the
    frontier with balance 0, accepted by the node under that hash; it
    commits balance 0 and that frontier, and leaves the other fields and
    the configured representative as they were. *)
Theorem sweep_success (w : World) to h w' :
  sweep to w = (Ok h, w') ->
  exists f blk wk, frontier (state w) = Some f /\
    createBlock privateKey (Block.mkBlockData (Some f) (config_representative w)
      0 (Some to) None) = Ok (blk, h) /\
    rpc_process blk wk = Ok (Some h) /\
    In (EvRpc (ReqProcess blk wk)) (trace w') /\
    chain_view (state w') =
      (0%Z, receivable (state w), receivableBlocks (state w),
       Some h, representative (state w)) /\
    config_representative w' = config_representative w.
Proof.
  intros H. unfold Wallet.sweep, bind at 1, get_world in H.
  destruct (frontier (state w)) as [f|] eqn:Hf; [|discriminate H].
  unfold bind at 1, lift in H.
  destruct (createBlock _ _) as [[blk hash]|e] eqn:Hcb; [|discriminate H].
  apply work_then_submit_ok in H as [wk [w1 [_ [Q [Hp H]]]]].
  apply update_then_return in H as [<- [Hv [Hc [a Ht]]]].
  exists f, blk, wk. split; [reflexivity|]. split; [exact Hcb|]. split; [exact Hp|].
  split; [eapply trace_prefix_in; [exact Ht|]; simpl; apply in_or_app; right; now left|].
  destruct Q as [Qv [Qc _]]. rewrite Hv. split; [|simpl in Hc; congruence].
  unfold chain_view in *. simpl in *. injection Qv; intros E1 E2 E3 E4 E5.
  rewrite ?E1, ?E2, ?E3, ?E4, ?E5. reflexivity.
Qed.

(** A successful [setRepresentative(acct)] uses [acct] when it is a
    non-empty string and the configured representative otherwise; it
    returns the hash of the block built with that representative and the
    current balance, accepted by the node; it commits the hash as frontier,
    the representative, and balance 0, keeps receivable and
    receivableBlocks, and configures the representative. *)
Theorem setRepresentative_success (w : World) acct h w' :
  setRepresentative acct w = (Ok h, w') ->
  let rep := if truthy acct then default (config_representative w) acct
             else config_representative w in
  exists f blk wk, frontier (state w) = Some f /\
    createBlock privateKey (Block.mkBlockData (Some f) rep (balance (state w))
      None None) = Ok (blk, h) /\
    rpc_process blk wk = Ok (Some h) /\
    In (EvRpc (ReqProcess blk wk)) (trace w') /\
    chain_view (state w') =
      (0%Z, receivable (state w), receivableBlocks (state w), Some h, Some rep) /\
    config_representative w' = rep.
Proof.
  intros H rep. unfold Wallet.setRepresentative, bind at 1, get_world in H.
  destruct (frontier (state w)) as [f|] eqn:Hf; [|discriminate H].
  unfold bind at 1, lift in H.
  destruct (createBlock _ _) as [[blk hash]|e] eqn:Hcb; [|discriminate H].
  apply work_then_submit_ok in H as [wk [w1 [_ [Q [Hp H]]]]].
  unfold bind at 1 in H.
  destruct (update_effect BlockRepr precomputeWork
              (mkPartial (Some 0%Z) None None (Some (Some hash))
                 (Some (Some rep)) None)
              (log BlockRepr (EvRpc (ReqProcess blk wk)) w1))
    as [w2 [Hu [Hv [Hc [a [Ht _]]]]]].
  fold rep in H. rewrite Hu in H.
  unfold bind, configure_representative, ret in H. inversion H; subst. clear H.
  exists f, blk, wk. split; [reflexivity|]. split; [exact Hcb|]. split; [exact Hp|].
  split; [eapply trace_prefix_in; [exact Ht|]; simpl; apply in_or_app; right; now left|].
  simpl. split; [|reflexivity].
  destruct Q as [Qv _]. rewrite Hv.
  unfold chain_view in *. simpl in *. injection Qv; intros E1 E2 E3 E4 E5.
  rewrite ?E1, ?E2, ?E3, ?E4, ?E5. reflexivity.
Qed.

(** A successful [receive(link)] has found a receivable block [rb] under
    [link.toUpperCase()]; it returns the hash of the block built from the
    frontier with balance [balance + rb.amount] and that link, accepted by
    the node; it commits that balance, [receivable - rb.amount], the list
    without the received hash, and the hash as frontier, and leaves the
    state's representative and the configured one as they were. *)
Theorem receive_success (w : World) link h w' :
  receive link w = (Ok h, w') ->
  exists rb blk wk,
    find_receivable (toUpperCase link) (receivableBlocks (state w)) = Some rb /\
    createBlock privateKey (Block.mkBlockData (frontier (state w))
      (config_representative w) (balance (state w) + amount rb)
      (Some (toUpperCase link)) None) = Ok (blk, h) /\
    rpc_process blk wk = Ok (Some h) /\
    In (EvRpc (ReqProcess blk wk)) (trace w') /\
    chain_view (state w') =
      ((balance (state w) + amount rb)%Z, (receivable (state w) - amount rb)%Z,
       filter (fun b => negb (String.eqb (blockHash b) (toUpperCase link)))
         (receivableBlocks (state w)),
       Some h, representative (state w)) /\
    config_representative w' = config_representative w.
Proof.
  intros H. unfold Wallet.receive, bind at 1, get_world in H. cbv beta iota zeta in H.
  destruct (find_receivable _ _) as [rb|] eqn:Hfind; [|discriminate H].
  unfold bind at 1, lift in H.
  destruct (createBlock _ _) as [[blk hash]|e] eqn:Hcb; [|discriminate H].
  apply work_then_submit_ok in H as [wk [w1 [_ [Q [Hp H]]]]].
  unfold bind at 1, get_world in H.
  apply update_then_return in H as [<- [Hv [Hc [a Ht]]]].
  exists rb, blk, wk. split; [reflexivity|]. split; [exact Hcb|]. split; [exact Hp|].
  split; [eapply trace_prefix_in; [exact Ht|]; simpl; apply in_or_app; right; now left|].
  destruct Q as [Qv [Qc _]]. rewrite Hv. split; [|simpl in Hc; congruence].
  unfold chain_view in *. simpl in *. injection Qv; intros E1 E2 E3 E4 E5.
  rewrite ?E1, ?E2, ?E3, ?E4, ?E5. reflexivity.
Qed.

(** [send], [sweep] and [setRepresentative] need an opened account: with
    no frontier each fails with ['No frontier'] and changes nothing. *)
Theorem chain_ops_require_frontier (w : World) to amount acct :
  frontier (state w) = None ->
  send to amount w = (Err (newError "No frontier"), w) /\
  sweep to w = (Err (newError "No frontier"), w) /\
  setRepresentative acct w = (Err (newError "No frontier"), w).
Proof.
  intros Hf.
  unfold Wallet.send, Wallet.sweep, Wallet.setRepresentative, bind, get_world.
  rewrite Hf. repeat split.
Qed.

(** [getWork(hash, threshold)] returns either the cached solution, with no
    effect at all, or, on a cache miss, a solution the work server answered
    and [validateWork] accepts. That solution is cached, unless the
    precompute listener drops it at once because [hash] is not the current
    frontier; the committed fields are untouched either way. *)
Theorem getWork_result (w : World) hash threshold wk w' :
  getWork hash threshold w = (Ok wk, w') ->
  (cached_work (work (state w)) hash threshold = Some wk /\ w' = w) \/
  (cached_work (work (state w)) hash threshold = None /\
   rpc_workGenerate hash threshold = Ok (Some wk) /\ wk <> "" /\
   validateWork wk hash threshold = true /\
   work (state w') =
     (if precomputeWork && negb (opt_eqb (Some hash) (frontier (state w)))
      then None else Some (Work.mkWork hash threshold wk)) /\
   chain_view (state w') = chain_view (state w)).
Proof.
  intros H. pose proof (getWork_quiet precomputeWork BlockRepr validateWork rpc_workGenerate hash threshold w) as [[Qv _] _].
  rewrite H in Qv. simpl in Qv.
  unfold Wallet.getWork, bind at 1, get_world in H.
  destruct (cached_work _ _ _) as [c|] eqn:Hc.
  - left. unfold ret in H. inversion H. now subst.
  - right. split; [reflexivity|].
    unfold bind at 1, Wallet.workGenerate, bind at 1, rpc, lift in H.
    destruct (rpc_workGenerate hash threshold) as [[g|]|e] eqn:Hg; try discriminate H.
    cbn beta iota in H. destruct (String.eqb_spec g "") as [|Hne]; [discriminate H|].
    destruct (validateWork g hash threshold) eqn:Hv; [|discriminate H].
    unfold ret, bind, update in H. inversion H; subst wk w'. clear H.
    split; [reflexivity|]. split; [exact Hne|]. split; [exact Hv|].
    split; [|exact Qv].
    destruct precomputeWork; [|reflexivity].
    rewrite listener_state. cbn [state commit merge only_work p_work default work
                                 frontier p_frontier Work.hash andb negb id log].
    now destruct (opt_eqb (Some hash) (frontier (state w))).
Qed.

(** A successful [getReceivable()] stores the blocks the node listed (none
    when its answer has no [blocks]) and, as receivable, the sum of their
    amounts; balance, frontier and representative are untouched, and it
    returns what it stored. *)
Theorem getReceivable_success (w : World) rbs total w' :
  getReceivable w = (Ok (rbs, total), w') ->
  exists r, rpc_receivable account minAmountRaw = Ok r /\
    rbs = map (fun '(h, a) => mkReceivableBlock h a) (default [] r) /\
    total = fold_right Z.add 0%Z (map amount rbs) /\
    chain_view (state w') =
      (balance (state w), total, rbs, frontier (state w), representative (state w)).
Proof.
  unfold Wallet.getReceivable, bind at 1, rpc, lift.
  destruct (rpc_receivable account minAmountRaw) as [r|e]; [|intros H; discriminate H].
  cbn beta iota zeta. intros H.
  apply update_then_return in H as [Hr [Hv _]].
  inversion Hr; subst rbs total. clear Hr.
  exists r. split; [reflexivity|]. split; [reflexivity|]. split.
  - rewrite fold_receivable. lia.
  - rewrite Hv. reflexivity.
Qed.

Lemma getReceivable_effect (w : World) r :
  rpc_receivable account minAmountRaw = Ok r ->
  let rbs := map (fun '(h, a) => mkReceivableBlock h a) (default [] r) in
  exists w', getReceivable w = (Ok (rbs, fold_right Z.add 0%Z (map amount rbs)), w') /\
    chain_view (state w') =
      (balance (state w), fold_right Z.add 0%Z (map amount rbs), rbs,
       frontier (state w), representative (state w)) /\
    config_representative w' = config_representative w.
Proof.
  intros Hr rbs. unfold Wallet.getReceivable, bind at 1, rpc, lift. rewrite Hr.
  cbn beta iota zeta. unfold bind at 1.
  match goal with
  | |- context [update precomputeWork BlockRepr ?p ?w0] =>
      destruct (update_effect BlockRepr precomputeWork p w0) as [w2 [Hu [Hv [Hc _]]]]
  end.
  rewrite Hu. unfold ret. exists w2.
  rewrite fold_receivable, Z.add_0_l in Hv |- *. split; [reflexivity|].
  split; [rewrite Hv; reflexivity|exact Hc].
Qed.

(** When the node answers both requests, [sync()] resolves and the store
    holds the account's balance, frontier and representative from
    [account_info], and the receivable blocks and their sum from
    [receivable]: the receivable total of [account_info] is overwritten. *)
Theorem sync_success (w : World) info r :
  rpc_accountInfo account = Ok info ->
  rpc_receivable account minAmountRaw = Ok r ->
  let rbs := map (fun '(h, a) => mkReceivableBlock h a) (default [] r) in
  exists w', sync w = (Ok tt, w') /\
    chain_view (state w') =
      (ai_balance info, fold_right Z.add 0%Z (map amount rbs), rbs,
       Some (ai_frontier info), Some (ai_representative info)) /\
    config_representative w' = config_representative w.
Proof.
  intros Hai Hr rbs. unfold Wallet.sync, Wallet.sync_try, bind at 1, rpc at 1, lift at 1.
  rewrite Hai. cbn beta iota. unfold bind at 1.
  match goal with
  | |- context [update precomputeWork BlockRepr ?p ?w0] =>
      destruct (update_effect BlockRepr precomputeWork p w0) as [w1 [Hu [Hv1 [Hc1 _]]]]
  end.
  rewrite Hu. unfold bind at 1.
  destruct (getReceivable_effect w1 r Hr) as [w2 [Hg [Hv2 Hc2]]].
  fold rbs in Hg, Hv2. rewrite Hg. unfold ret. exists w2. split; [reflexivity|].
  split; [|simpl in Hc1; congruence].
  rewrite Hv2. unfold chain_view in Hv1. simpl in Hv1.
  injection Hv1 as -> _ _ -> ->. reflexivity.
Qed.

(** [sync()] is not atomic: when [account_info] succeeds and [receivable]
    then fails, the balance, frontier, representative and receivable total
    of [account_info] are already committed (the receivable blocks are the
    old ones), and the error is raised, unless its message is ['Account not
    found'], which [sync] swallows. *)
Theorem sync_partial_commit (w : World) info e :
  rpc_accountInfo account = Ok info ->
  rpc_receivable account minAmountRaw = Err e ->
  exists w',
    sync w = (if String.eqb (err_message e) "Account not found" then Ok tt else Err e,
              w') /\
    chain_view (state w') =
      (ai_balance info, ai_receivable info, receivableBlocks (state w),
       Some (ai_frontier info), Some (ai_representative info)).
Proof.
  intros Hai Hr. unfold Wallet.sync, Wallet.sync_try, bind at 1, rpc at 1, lift at 1.
  rewrite Hai. cbn beta iota. unfold bind at 1.
  match goal with
  | |- context [update precomputeWork BlockRepr ?p ?w0] =>
      destruct (update_effect BlockRepr precomputeWork p w0) as [w1 [Hu [Hv1 _]]]
  end.
  rewrite Hu. unfold bind at 1, Wallet.getReceivable, bind at 1, rpc, lift.
  rewrite Hr. cbn beta iota.
  exists (log BlockRepr (EvRpc (ReqReceivable account minAmountRaw)) w1).
  split; [now destruct (String.eqb _ _)|].
  simpl. rewrite Hv1. reflexivity.
Qed.
End Ops.

End WalletExtras.


(** * Sample runs of the further properties *)

Module ExtraRuns.
Import Rpc.
Import Wallet.

(** A first endpoint answering with a bad status: one attempt, no retry. *)
Lemma postRPC_response_error_not_retried_witness :
  nth_error ["u1"; "u2"] 0 = Some "u1" /\
  postRPC (fun _ => FetchResponse false None) ["u1"; "u2"] =
    (Err (newError "bad status in response"), [Some "u1"]).
Proof.
  split; [reflexivity|].
  apply (RpcExtras.postRPC_response_error_not_retried
           (fun _ => FetchResponse false None) ["u1"; "u2"] "u1" false None
           (newError "bad status in response")); reflexivity.
Defined.

(** Subscribing a listener to a controller without listeners, then
    unsubscribing it, gives back the controller. *)
Lemma subscribe_unsubscribe_roundtrip_witness :
  existsb (fun _ => true) (Store.internalListeners (@Store.mkController unit ∅ [])) = false /\
  Store.unsubscribe (fun _ _ => true)
    (Store.subscribe (@Store.mkController unit ∅ []) (fun _ _ => Store.Fulfilled 0))
    (fun _ _ => Store.Fulfilled 0) = (@Store.mkController unit ∅ [], true).
Proof.
  split; [reflexivity|].
  apply (StoreExtras.subscribe_unsubscribe_roundtrip (V:=unit) (fun _ _ => true)
           (fun _ => eq_refl)); reflexivity.
Defined.

(** Moving the frontier of the sample wallet from ["F"] to ["G"] drops
    nothing (no work is cached) and requests work for ["G"]. *)
Lemma update_precomputes_new_frontier_witness :
  frontier (merge (state Sample.w0) Sample.to_frontier_G) = Some "G" /\
  exists w', update true Block.BlockData Sample.to_frontier_G Sample.w0 = (Ok tt, w') /\
    trace w' = [EvUpdate Sample.to_frontier_G;
                EvRpc (ReqWorkGenerate "G" SEND_DIFFICULTY)] /\
    work (state w') = None /\ previousFrontier w' = Some "G".
Proof.
  split; [reflexivity|].
  apply (WalletExtras.update_precomputes_new_frontier Block.BlockData
           Sample.to_frontier_G Sample.w0 "G");
    [reflexivity | discriminate | discriminate | exact I].
Defined.

(** A [send] of 1 from the sample wallet to an honest node. *)
Lemma send_success_witness :
  let run := send "priv" true Block.BlockData Sample.createBlock Sample.validateWork
               Sample.workGenerate Sample.process_honest "to" 1 Sample.w0 in
  run = (Ok "H1", snd run) /\
  chain_view (state (snd run)) = (4%Z, 3%Z, [mkReceivableBlock "L1" 3], Some "H1", Some "R0").
Proof.
  intros run. split; [vm_compute; reflexivity|].
  destruct (WalletExtras.send_success "priv" true Block.BlockData Sample.createBlock
              Sample.validateWork Sample.workGenerate Sample.process_honest Sample.w0
              "to" 1 "H1" (snd run)) as [f [blk [wk [_ [_ [_ [_ [Hv _]]]]]]]];
    [vm_compute; reflexivity|].
  rewrite Hv. reflexivity.
Defined.

(** A [sweep] of the sample wallet to an honest node. *)
Lemma sweep_success_witness :
  let run := sweep "priv" true Block.BlockData Sample.createBlock Sample.validateWork
               Sample.workGenerate Sample.process_honest "to" Sample.w0 in
  run = (Ok "H1", snd run) /\
  chain_view (state (snd run)) = (0%Z, 3%Z, [mkReceivableBlock "L1" 3], Some "H1", Some "R0").
Proof.
  intros run. split; [vm_compute; reflexivity|].
  destruct (WalletExtras.sweep_success "priv" true Block.BlockData Sample.createBlock
              Sample.validateWork Sample.workGenerate Sample.process_honest Sample.w0
              "to" "H1" (snd run)) as [f [blk [wk [_ [_ [_ [_ [Hv _]]]]]]]];
    [vm_compute; reflexivity|].
  rewrite Hv. reflexivity.
Defined.

(** A [setRepresentative("NEWREP")] of the sample wallet to an honest node. *)
Lemma setRepresentative_success_witness :
  let run := setRepresentative "priv" true Block.BlockData Sample.createBlock
               Sample.validateWork Sample.workGenerate Sample.process_honest
               (Some "NEWREP") Sample.w0 in
  run = (Ok "H1", snd run) /\
  chain_view (state (snd run)) =
    (0%Z, 3%Z, [mkReceivableBlock "L1" 3], Some "H1", Some "NEWREP") /\
  config_representative (snd run) = "NEWREP".
Proof.
  intros run. split; [vm_compute; reflexivity|].
  destruct (WalletExtras.setRepresentative_success "priv" true Block.BlockData
              Sample.createBlock Sample.validateWork Sample.workGenerate
              Sample.process_honest Sample.w0 (Some "NEWREP") "H1" (snd run))
    as [f [blk [wk [_ [_ [_ [_ [Hv Hc]]]]]]]];
    [vm_compute; reflexivity|].
  split; [rewrite Hv; reflexivity | exact Hc].
Defined.

(** A [receive("l1")] of the sample wallet's receivable block ["L1"]. *)
Lemma receive_success_witness :
  let run := receive "priv" "PUB" true Block.BlockData Sample.createBlock
               Sample.validateWork Sample.workGenerate Sample.process_honest
               "l1" Sample.w0 in
  run = (Ok "H1", snd run) /\
  chain_view (state (snd run)) = (8%Z, 0%Z, [], Some "H1", Some "R0").
Proof.
  intros run. split; [vm_compute; reflexivity|].
  destruct (WalletExtras.receive_success "priv" "PUB" true Block.BlockData
              Sample.createBlock Sample.validateWork Sample.workGenerate
              Sample.process_honest Sample.w0 "l1" "H1" (snd run))
    as [rb [blk [wk [Hf [_ [_ [_ [Hv _]]]]]]]];
    [vm_compute; reflexivity|].
  rewrite Hv. vm_compute in Hf. injection Hf as <-. vm_compute. reflexivity.
Defined.

(** The three frontier operations on a wallet whose account is not opened. *)
Lemma chain_ops_require_frontier_witness :
  frontier (state Sample.w_unopened) = None /\
  send "priv" true Block.BlockData Sample.createBlock Sample.validateWork
    Sample.workGenerate Sample.process_honest "to" 1 Sample.w_unopened =
    (Err (newError "No frontier"), Sample.w_unopened).
Proof.
  split; [reflexivity|].
  apply (WalletExtras.chain_ops_require_frontier "priv" true Block.BlockData
           Sample.createBlock Sample.validateWork Sample.workGenerate
           Sample.process_honest Sample.w_unopened "to" 1 None).
  reflexivity.
Defined.

(** [getWork] for the sample wallet's frontier misses the cache, asks the
    work server and keeps its answer. *)
Lemma getWork_result_witness :
  let run := getWork true Block.BlockData Sample.validateWork Sample.workGenerate
               "F" SEND_DIFFICULTY Sample.w0 in
  run = (Ok "W", snd run) /\
  work (state (snd run)) = Some (Work.mkWork "F" SEND_DIFFICULTY "W").
Proof.
  intros run. split; [vm_compute; reflexivity|].
  destruct (WalletExtras.getWork_result true Block.BlockData Sample.validateWork
              Sample.workGenerate Sample.w0 "F" SEND_DIFFICULTY "W" (snd run))
    as [[Hc _]|[_ [_ [_ [_ [Hw _]]]]]];
    [vm_compute; reflexivity | vm_compute in Hc; discriminate Hc |].
  rewrite Hw. reflexivity.
Defined.

(** [getReceivable] with a node listing blocks of 2 and 5. *)
Lemma getReceivable_success_witness :
  let run := getReceivable "acct" true 0 Block.BlockData Sample.receivable_two Sample.w0 in
  run = (Ok ([mkReceivableBlock "A" 2; mkReceivableBlock "B" 5], 7%Z), snd run) /\
  chain_view (state (snd run)) =
    (5%Z, 7%Z, [mkReceivableBlock "A" 2; mkReceivableBlock "B" 5], Some "F", Some "R0").
Proof.
  intros run. split; [vm_compute; reflexivity|].
  destruct (WalletExtras.getReceivable_success "acct" true 0 Block.BlockData
              Sample.receivable_two Sample.w0
              [mkReceivableBlock "A" 2; mkReceivableBlock "B" 5] 7 (snd run))
    as [r [_ [_ [_ Hv]]]]; [vm_compute; reflexivity|].
  exact Hv.
Defined.

(** [sync] with a node that answers both requests. *)
Lemma sync_success_witness :
  Sample.accountInfo_ok "acct" = Ok (mkAccountInfo 9 "G" 4 "R1") /\
  exists w', sync "acct" true 0 Block.BlockData Sample.accountInfo_ok
               Sample.receivable_two Sample.w0 = (Ok tt, w') /\
    chain_view (state w') =
      (9%Z, 7%Z, [mkReceivableBlock "A" 2; mkReceivableBlock "B" 5], Some "G", Some "R1") /\
    config_representative w' = "R".
Proof.
  split; [reflexivity|].
  exact (WalletExtras.sync_success "acct" true 0 Block.BlockData Sample.accountInfo_ok
           Sample.receivable_two Sample.w0 (mkAccountInfo 9 "G" 4 "R1")
           (Some [("A", 2); ("B", 5)]%Z) eq_refl eq_refl).
Defined.

(** [sync] with a node whose [receivable] request fails after
    [account_info]: the error is raised, the account info is committed. *)
Lemma sync_partial_commit_witness :
  Sample.receivable_down "acct" 0 = Err (newError "Internal error") /\
  exists w', sync "acct" true 0 Block.BlockData Sample.accountInfo_ok
               Sample.receivable_down Sample.w0 = (Err (newError "Internal error"), w') /\
    chain_view (state w') = (9%Z, 4%Z, [mkReceivableBlock "L1" 3], Some "G", Some "R1").
Proof.
  split; [reflexivity|].
  exact (WalletExtras.sync_partial_commit "acct" true 0 Block.BlockData
           Sample.accountInfo_ok Sample.receivable_down Sample.w0
           (mkAccountInfo 9 "G" 4 "R1") (newError "Internal error") eq_refl eq_refl).
Defined.

End ExtraRuns.


(** * The configuration half of BaseController *)

Module ConfigExtras.
Import ConfigStore.

Section Props.
Context {V : Type}.
Implicit Types (c : Controller V) (o : gmap string (jsval V)).

Lemma deref_insert_same (h : gmap positive (gmap string (jsval V))) l o : deref (<[l := o]> h) l = o.
Proof. unfold deref. now rewrite lookup_insert_eq. Qed.

Lemma deref_insert_other (h : gmap positive (gmap string (jsval V))) l l' o :
  l <> l' -> deref (<[l := o]> h) l' = deref h l'.
Proof. intros Hne. unfold deref. now rewrite lookup_insert_ne. Qed.

Lemma defined_entries_lookup o k :
  defined_entries o !! k =
  match o !! k with Some (Defined x) => Some (Defined x) | _ => None end.
Proof.
  unfold defined_entries. rewrite lookup_omap.
  destruct (o !! k) as [[|x]|]; reflexivity.
Qed.






End Props.

End ConfigExtras.


Module ConfigRuns.
Import ConfigStore.


End ConfigRuns.
